(** * Syscall-table generation of rust-vmm-ci: a shallow embedding

    This development embeds [scripts/lib/syscall.py] and the part of
    [scripts/rustvmm_gen.py] that drives it, and proves the properties the
    specification states about them.

    Conventions.
    - Python [str] values are Rocq [string]s; one [ascii] stands for one code
      point in the range 0..255, classified as CPython classifies it
      ([str.isspace], and the [\w], [\s], [\d] classes of [re] on [str]
      patterns).
    - Python [int] is [Z]; [int(text)] on a run of decimal digits is its
      base-10 value, and raises [ValueError] when the run is longer than
      the 4300 digits CPython converts by default.
    - Exceptions, the file system (files, directories, and the faults that
      opening and writing can meet), the external formatter and the console
      are explicit: a command is a function from a [world] to an [outcome]
      and the [world] it leaves. *)

From Stdlib Require Import ZArith Ascii String List Permutation Sorted Bool.
From stdpp Require Import base option list gmap strings pretty sorting.

Local Open Scope string_scope.
Local Open Scope Z_scope.
Local Open Scope list_scope.

(** ** Characters and their classes *)

Module Char.

Definition code (c : ascii) : N := N_of_ascii c.

Definition between (lo hi : N) (c : ascii) : bool :=
  ((lo <=? code c) && (code c <=? hi))%N.

Definition at_code (n : N) (c : ascii) : bool := (code c =? n)%N.

(** [str.isspace] for one code point; also the class [\s]. *)
Definition isspace (c : ascii) : bool :=
  between 9 13 c || between 28 32 c || at_code 133 c || at_code 160 c.

(** Decimal digits: the class [\d]. *)
Definition isdecimal (c : ascii) : bool := between 48 57 c.

Definition isalpha (c : ascii) : bool :=
  between 65 90 c || between 97 122 c
  || at_code 170 c || at_code 181 c || at_code 186 c
  || between 192 214 c || between 216 246 c || between 248 255 c.

(** Superscript digits and vulgar fractions count as numeric. *)
Definition isnumeric (c : ascii) : bool :=
  isdecimal c || at_code 178 c || at_code 179 c || at_code 185 c || between 188 190 c.

Definition isalnum (c : ascii) : bool := isalpha c || isnumeric c.

(** The class [\w]: alphanumeric or underscore. *)
Definition isword (c : ascii) : bool := isalnum c || at_code 95 c.

Definition digit_value (c : ascii) : Z := Z.of_N (code c) - 48.

End Char.

(** A few characters that cannot be written inside a string literal. *)
Definition LF : ascii := "010"%char.
Definition CR : ascii := "013"%char.
Definition nl : string := String LF "".
Definition dquote : string := String "034"%char "".

(** ** Exceptions *)

Inductive exn_class : Type :=
  | Exception | OSError | FileNotFoundError | PermissionError
  | IsADirectoryError | NotADirectoryError | FileExistsError
  | ValueError | UnicodeDecodeError | UnicodeEncodeError
  | KeyError | CalledProcessError | RuntimeError.

(** [IOError] is an alias of [OSError]. *)
Definition IOError : exn_class := OSError.

Definition exn_class_eqb (c d : exn_class) : bool :=
  match c, d with
  | Exception, Exception | OSError, OSError
  | FileNotFoundError, FileNotFoundError | PermissionError, PermissionError
  | IsADirectoryError, IsADirectoryError
  | NotADirectoryError, NotADirectoryError
  | FileExistsError, FileExistsError
  | ValueError, ValueError | UnicodeDecodeError, UnicodeDecodeError
  | UnicodeEncodeError, UnicodeEncodeError
  | KeyError, KeyError | CalledProcessError, CalledProcessError
  | RuntimeError, RuntimeError => true
  | _, _ => false
  end.

(** The class hierarchy of the built-in exceptions involved. *)
Definition issubclass (c d : exn_class) : bool :=
  match d with
  | Exception => true
  | OSError =>
      match c with
      | OSError | FileNotFoundError | PermissionError | IsADirectoryError
      | NotADirectoryError | FileExistsError => true
      | _ => false
      end
  | ValueError =>
      match c with
      | ValueError | UnicodeDecodeError | UnicodeEncodeError => true
      | _ => false
      end
  | _ => exn_class_eqb c d
  end.

(** An exception object: its class and [str(e)]. *)
Record exn : Type := Exn { exn_cls : exn_class; exn_str : string }.

Definition isinstance (e : exn) (c : exn_class) : bool :=
  issubclass (exn_cls e) c.
Arguments isinstance : simpl never.

(** What a computation gives: a value, or an exception. *)
Inductive outcome (A : Type) : Type :=
  | Return (a : A)
  | Raise (e : exn).
Arguments Return {A} a.
Arguments Raise {A} e.

(** ** String helpers mirroring the [str] methods the script calls *)

Module Str.

Fixpoint all (p : ascii -> bool) (s : string) : bool :=
  match s with
  | "" => true
  | String c r => p c && all p r
  end.

Fixpoint any (p : ascii -> bool) (s : string) : bool :=
  match s with
  | "" => false
  | String c r => p c || any p r
  end.

(** Whether [s] begins with a character of class [p]. *)
Definition starts_in (p : ascii -> bool) (s : string) : bool :=
  match s with
  | "" => false
  | String c _ => p c
  end.

Fixpoint lstrip (s : string) : string :=
  match s with
  | "" => ""
  | String c r => if Char.isspace c then lstrip r else s
  end.

Fixpoint rstrip (s : string) : string :=
  match s with
  | "" => ""
  | String c r =>
      match rstrip r with
      | "" => if Char.isspace c then "" else String c ""
      | r' => String c r'
      end
  end.

(** [s.strip()] *)
Definition strip (s : string) : string := rstrip (lstrip s).

(** [s.startswith(p)] *)
Definition startswith (s p : string) : bool := String.prefix p s.

(** [sep.join(l)] *)
Definition join (sep : string) (l : list string) : string :=
  String.concat sep l.

(** The base-10 value of a run of decimal digits, most significant first. *)
Fixpoint int_from (acc : Z) (s : string) : Z :=
  match s with
  | "" => acc
  | String c r => int_from (10 * acc + Char.digit_value c) r
  end.

Definition int_value (s : string) : Z := int_from 0 s.

(** The default of [sys.get_int_max_str_digits()]. *)
Definition MAX_STR_DIGITS : nat := 4300.

Definition int_limit_message (digits : nat) : string :=
  "Exceeds the limit (4300 digits) for integer string conversion: value has "
  +:+ pretty digits
  +:+ " digits; use sys.set_int_max_str_digits() to increase the limit".

(** [int(s)] for [s] a run of decimal digits: its value, unless the run is
    longer than the interpreter allows. *)
Definition int (s : string) : outcome Z :=
  if (MAX_STR_DIGITS <? String.length s)%nat
  then Raise (Exn ValueError (int_limit_message (String.length s)))
  else Return (int_value s).

Definition hex_digit (n : N) : ascii :=
  ascii_of_N (if (n <? 10)%N then 48 + n else 87 + n).

(** Characters [repr] shows as they are (the quote and the backslash are
    handled before). *)
Definition isprintable (c : ascii) : bool :=
  Char.between 32 126 c || Char.between 161 172 c || Char.between 174 255 c.

Definition backslash : ascii := "092"%char.

Definition repr_char (quote c : ascii) : string :=
  if Ascii.eqb c quote || Ascii.eqb c backslash
  then String backslash (String c "")
  else if Ascii.eqb c "009"%char then String backslash "t"
  else if Ascii.eqb c LF then String backslash "n"
  else if Ascii.eqb c CR then String backslash "r"
  else if isprintable c then String c ""
  else String backslash (String "x"%char
         (String (hex_digit (Char.code c / 16))
            (String (hex_digit (Char.code c mod 16)) ""))).

Fixpoint repr_body (quote : ascii) (s : string) : string :=
  match s with
  | "" => ""
  | String c r => repr_char quote c +:+ repr_body quote r
  end.

(** [repr(s)]: between apostrophes, or between double quotes when [s] holds
    an apostrophe and no double quote. *)
Definition repr (s : string) : string :=
  let quote :=
    if any (Ascii.eqb "'"%char) s && negb (any (Ascii.eqb "034"%char) s)
    then "034"%char else "'"%char in
  String quote (repr_body quote s +:+ String quote "").

End Str.
(** ** Text-mode reading: universal newlines and line iteration *)

(** [open(path, "r")] translates the line endings CR LF and CR to LF. *)
Fixpoint universal_newlines (s : string) : string :=
  match s with
  | "" => ""
  | String c r =>
      if Ascii.eqb c CR then
        match r with
        | String c' r' =>
            if Ascii.eqb c' LF then String LF (universal_newlines r')
            else String LF (universal_newlines r)
        | "" => String LF ""
        end
      else String c (universal_newlines r)
  end.

(** The lines [for line in f] yields: each keeps its terminating LF, the
    last one may have none. *)
Fixpoint split_lines (s : string) : list string :=
  match s with
  | "" => []
  | String c r =>
      if Ascii.eqb c LF then String c "" :: split_lines r
      else match split_lines r with
           | [] => [String c ""]
           | l :: ls => String c l :: ls
           end
  end.

Definition file_lines (text : string) : list string :=
  split_lines (universal_newlines text).

(** ** The regular expression [^#define __NR_(\w+)\s+(\d+)]

    [re] matches by backtracking.  The combinators below are that search for
    the three constructs the pattern uses; each takes the continuation that
    matches the rest of the pattern. *)

Module Re.

(** A literal run of characters. *)
Fixpoint lit {A} (l s : string) (k : string -> option A) : option A :=
  match l with
  | "" => k s
  | String a l' =>
      match s with
      | String c s' => if Ascii.eqb a c then lit l' s' k else None
      | "" => None
      end
  end.

(** [X+] for a character class [X], greedy: the longest run is tried
    first, and one character at a time is given back while the
    continuation fails.  The continuation receives the text matched and
    the text left. *)
Fixpoint plus {A} (cls : ascii -> bool) (s : string)
    (k : string -> string -> option A) : option A :=
  match s with
  | "" => None
  | String c r =>
      if cls c then
        match plus cls r (fun m rest => k (String c m) rest) with
        | Some a => Some a
        | None => k (String c "") r
        end
      else None
  end.

End Re.

Definition define_prefix : string := "#define __NR_".

(** [pattern.match(line)], returning [(match.group(1), match.group(2))]. *)
Definition pattern_match (line : string) : option (string * string) :=
  Re.lit define_prefix line (fun s1 =>
  Re.plus Char.isword s1 (fun name s2 =>
  Re.plus Char.isspace s2 (fun _ s3 =>
  Re.plus Char.isdecimal s3 (fun digits _ =>
  Some (name, digits))))).

(** ** [generate_syscall_table]: the loop body, the sort and the rendering *)

Definition entry : Type := string * Z.

(** The body of [for line in f], for an arbitrary matcher [re_match] in the
    place of [pattern.match]: nothing, an entry to append, or the exception
    of [int]. *)
Definition scan_line (re_match : string -> option (string * string))
    (line : string) : outcome (option entry) :=
  let line := Str.strip line in
  if Str.startswith line define_prefix then
    match re_match line with
    | Some (name, digits) =>
        match Str.int digits with
        | Return num => Return (Some (name, num))
        | Raise e => Raise e
        end
    | None => Return None
    end
  else Return None.

Definition parse_line : string -> outcome (option entry) :=
  scan_line pattern_match.

(** The list [syscalls] when the loop ends, or the exception that ended it:
    the lines are taken in order, the first that raises stops the loop. *)
Fixpoint parse_lines (lines : list string) : outcome (list entry) :=
  match lines with
  | [] => Return []
  | line :: rest =>
      match parse_line line with
      | Raise e => Raise e
      | Return found =>
          match parse_lines rest with
          | Raise e => Raise e
          | Return syscalls =>
              Return (match found with
                      | Some e => e :: syscalls
                      | None => syscalls
                      end)
          end
      end
  end.

(** [l.sort(key=...)]: a stable sort, here by insertion. *)
Section list_sort.
Context {A K : Type} (key : A -> K) (le : K -> K -> bool).

Fixpoint sort_insert (x : A) (l : list A) : list A :=
  match l with
  | [] => [x]
  | y :: l' =>
      if le (key x) (key y) then x :: y :: l' else y :: sort_insert x l'
  end.

Fixpoint list_sort (l : list A) : list A :=
  match l with
  | [] => []
  | x :: l' => sort_insert x (list_sort l')
  end.
End list_sort.

(** [syscalls.sort(key=lambda x: x[0])] *)
Definition sort_syscalls (syscalls : list entry) : list entry :=
  list_sort fst String.leb syscalls.

(** [f'("{name}", {num}),'] *)
Definition render_entry (e : entry) : string :=
  "(" +:+ dquote +:+ fst e +:+ dquote +:+ ", " +:+ pretty (snd e) +:+ "),".

(** Sorting, rendering and joining: the last three statements of the
    [with] block. *)
Definition serialize (syscalls : list entry) : string :=
  let syscall_list := render_entry <$> sort_syscalls syscalls in
  Str.join " " syscall_list.

(** The loop over given lines, then the last three statements. *)
Definition table_of_lines (lines : list string) : outcome string :=
  match parse_lines lines with
  | Return syscalls => Return (serialize syscalls)
  | Raise e => Raise e
  end.

(** What the [with] block of [generate_syscall_table] does for a file with
    this text: the string it returns, or the exception it raises. *)
Definition syscall_table_of_text (text : string) : outcome string :=
  table_of_lines (file_lines text).

(** ** Paths: the parts of [os.path] and [pathlib] the driver uses *)

Module OsPath.

Definition sep : ascii := "/"%char.

(** [p[:p.rfind("/") + 1]] *)
Fixpoint head (p : string) : string :=
  match p with
  | "" => ""
  | String c r =>
      match head r with
      | "" => if Ascii.eqb c sep then String c "" else ""
      | h => String c h
      end
  end.

(** [h.rstrip("/")] *)
Fixpoint rstrip_sep (h : string) : string :=
  match h with
  | "" => ""
  | String c r =>
      match rstrip_sep r with
      | "" => if Ascii.eqb c sep then "" else String c ""
      | r' => String c r'
      end
  end.

(** [os.path.dirname(p)] *)
Definition dirname (p : string) : string :=
  let h := head p in
  if negb (String.eqb h "") && negb (Str.all (Ascii.eqb sep) h)
  then rstrip_sep h else h.

Fixpoint endswith_sep (p : string) : bool :=
  match p with
  | "" => false
  | String c "" => Ascii.eqb c sep
  | String _ r => endswith_sep r
  end.

(** [os.path.join(a, b)] *)
Definition join (a b : string) : string :=
  if Str.starts_in (Ascii.eqb sep) b then b
  else if String.eqb a "" || endswith_sep a then a +:+ b
  else a +:+ "/" +:+ b.

End OsPath.

(** ** The world a command runs in *)

Record world : Type := World {
  (** regular files and their text *)
  files : gmap string string;
  (** the directories that exist, besides the current directory and the
      root *)
  dirs : gset string;
  (** paths at which opening or creating raises, for a reason other than
      the state of [files] and [dirs] shows (permissions, a read-only file
      system, undecodable bytes, ...) *)
  faults : gmap string exn;
  (** paths at which writing or closing raises once the file is open (no
      space left, a character the encoding lacks, ...), with the text that
      reached the file *)
  write_faults : gmap string (exn * string);
  (** the formatter on [PATH], if any: from the text of the file it is run
      on to its exit status and the text it leaves in the file *)
  rustfmt : option (string -> Z * string);
  (** what has been printed, oldest first *)
  stdout : list string
}.

Definition set_files (fs : gmap string string) (w : world) : world :=
  {| files := fs; dirs := dirs w; faults := faults w;
     write_faults := write_faults w; rustfmt := rustfmt w;
     stdout := stdout w |}.

Definition set_dirs (ds : gset string) (w : world) : world :=
  {| files := files w; dirs := ds; faults := faults w;
     write_faults := write_faults w; rustfmt := rustfmt w;
     stdout := stdout w |}.

Definition add_stdout (line : string) (w : world) : world :=
  {| files := files w; dirs := dirs w; faults := faults w;
     write_faults := write_faults w; rustfmt := rustfmt w;
     stdout := stdout w ++ [line] |}.

(** A command: state passing with exceptions; the world an exception leaves
    behind is kept. *)
Definition M (A : Type) : Type := world -> outcome A * world.

Definition ret {A} (a : A) : M A := fun w => (Return a, w).
Definition raise {A} (e : exn) : M A := fun w => (Raise e, w).

(** A computation that does not touch the world. *)
Definition lift {A} (o : outcome A) : M A := fun w => (o, w).

Definition bind {A B} (m : M A) (f : A -> M B) : M B :=
  fun w =>
    match m w with
    | (Return a, w') => f a w'
    | (Raise e, w') => (Raise e, w')
    end.

Notation "'do' x <- m ;; k" := (bind m (fun x => k))
  (at level 10, x name, m at level 99, k at level 200).
Notation "'run' m ;; k" := (bind m (fun _ => k))
  (at level 10, m at level 99, k at level 200).

(** [except C as e: h e] clauses, tried in order. *)
Fixpoint dispatch {A} (handlers : list (exn_class * (exn -> M A)))
    (e : exn) : M A :=
  match handlers with
  | [] => raise e
  | (c, h) :: rest => if isinstance e c then h e else dispatch rest e
  end.

Definition try_except {A} (body : M A)
    (handlers : list (exn_class * (exn -> M A))) : M A :=
  fun w =>
    match body w with
    | (Return a, w') => (Return a, w')
    | (Raise e, w') => dispatch handlers e w'
    end.

Definition print (line : string) : M unit :=
  fun w => (Return tt, add_stdout line w).

(** [str(e)] of an [OSError] that names a path. *)
Definition os_error (cls : exn_class) (text path : string) : exn :=
  Exn cls (text +:+ ": " +:+ Str.repr path).

Definition no_such_file (path : string) : exn :=
  os_error FileNotFoundError "[Errno 2] No such file or directory" path.
Definition file_exists (path : string) : exn :=
  os_error FileExistsError "[Errno 17] File exists" path.
Definition not_a_directory (path : string) : exn :=
  os_error NotADirectoryError "[Errno 20] Not a directory" path.
Definition is_a_directory (path : string) : exn :=
  os_error IsADirectoryError "[Errno 21] Is a directory" path.

(** Whether [d] names a directory: the current one, the root, or one of
    [dirs]. *)
Definition is_dir (w : world) (d : string) : bool :=
  String.eqb d "."
  || (negb (String.eqb d "") && Str.all (Ascii.eqb OsPath.sep) d)
  || bool_decide (d ∈ dirs w).

Definition is_file (w : world) (p : string) : bool :=
  bool_decide (is_Some (files w !! p)).

(** Whether a regular file stands where a directory above [path] should
    be. *)
Fixpoint under_file (fuel : nat) (w : world) (path : string) : bool :=
  match fuel with
  | O => false
  | S n =>
      let d := OsPath.dirname path in
      if String.eqb d path then false
      else is_file w d || under_file n w d
  end.

(** Why an entry cannot be made at [path], as far as the directory above
    it goes. *)
Definition parent_error (w : world) (path : string) : option exn :=
  let d := OsPath.dirname path in
  if under_file (String.length path) w path then Some (not_a_directory path)
  else if String.eqb d "" || is_dir w d then None
  else Some (no_such_file path).

(** [with open(path, "r") as f]: the text of the file, or the exception that
    opening or reading raises. *)
Definition read_text (path : string) : M string :=
  fun w =>
    match faults w !! path with
    | Some e => (Raise e, w)
    | None =>
        match files w !! path with
        | Some text => (Return text, w)
        | None => (Raise (no_such_file path), w)
        end
    end.

(** [open(path, "w")]: the file is created, or emptied. *)
Definition open_for_writing (path : string) : M unit :=
  fun w =>
    match faults w !! path with
    | Some e => (Raise e, w)
    | None =>
        match parent_error w path with
        | Some e => (Raise e, w)
        | None =>
            if is_dir w path then (Raise (is_a_directory path), w)
            else (Return tt, set_files (<[path := ""]> (files w)) w)
        end
    end.

(** [f.write(text)] and the close that ends the [with] block: the text is
    in the file, or an exception is raised and the file holds what had
    reached it. *)
Definition write_and_close (path text : string) : M unit :=
  fun w =>
    match write_faults w !! path with
    | Some (e, kept) => (Raise e, set_files (<[path := kept]> (files w)) w)
    | None => (Return tt, set_files (<[path := text]> (files w)) w)
    end.

(** [with open(path, "w") as f: f.write(text)] *)
Definition write_text (path text : string) : M unit :=
  run open_for_writing path ;;
  write_and_close path text.

(** [os.mkdir(d)] *)
Definition os_mkdir (d : string) : M unit :=
  fun w =>
    match faults w !! d with
    | Some e => (Raise e, w)
    | None =>
        match parent_error w d with
        | Some e => (Raise e, w)
        | None =>
            if is_dir w d || is_file w d then (Raise (file_exists d), w)
            else (Return tt, set_dirs ({[d]} ∪ dirs w) w)
        end
    end.

(** [subprocess.run(["rustfmt", path], check=True)] *)
Definition run_rustfmt (path : string) : M unit :=
  fun w =>
    match rustfmt w with
    | None => (Raise (no_such_file "rustfmt"), w)
    | Some fmt =>
        let text := default "" (files w !! path) in
        let '(status, text') := fmt text in
        let w' := set_files (<[path := text']> (files w)) w in
        if status =? 0 then (Return tt, w')
        else (Raise (Exn CalledProcessError
                ("Command '['rustfmt', " +:+ Str.repr path
                 +:+ "]' returned non-zero exit status "
                 +:+ pretty status +:+ ".")), w')
    end.

(** ** [scripts/lib/syscall.py] *)

Definition generate_syscall_table (file_path : string) : M string :=
  try_except
    (do text <- read_text file_path ;;
     lift (syscall_table_of_text text))
    [ (FileNotFoundError, fun _ =>
         raise (Exn RuntimeError ("Header file not found: " +:+ file_path)));
      (Exception, fun e =>
         raise (Exn RuntimeError
                  ("File processing failed: " +:+ exn_str e))) ].

(** The f-string template of [generate_rust_code]. *)
Definition rust_code (syscalls : string) : string :=
  "use std::collections::HashMap;" +:+ nl +:+
  "pub(crate) fn make_syscall_table() -> HashMap<&'static str, i64> {"
  +:+ nl +:+
  "    vec![" +:+ nl +:+
  "        " +:+ syscalls +:+ nl +:+
  "    ].into_iter().collect()" +:+ nl +:+
  "}" +:+ nl.

Definition generate_rust_code (syscalls output_path : string) : M unit :=
  run print ("Generating to: " +:+ output_path) ;;
  let code := rust_code syscalls in
  try_except
    (run write_text output_path code ;;
     run run_rustfmt output_path ;;
     print ("Generation succeeded: " +:+ output_path))
    [ (CalledProcessError, fun _ =>
         raise (Exn RuntimeError "rustfmt formatting failed"));
      (IOError, fun e =>
         raise (Exn RuntimeError ("File write error: " +:+ exn_str e))) ].

(** ** [pathlib]: the part the driver uses *)

(** A [pathlib.Path]: its root (empty or a slash) and its components. *)
Record Path : Type := MkPath { root : string; parts : list string }.

(** [str(p)] *)
Definition fspath (p : Path) : string :=
  match root p, parts p with
  | "", [] => "."
  | r, ps => r +:+ Str.join "/" ps
  end.

(** [p / name] for [name] a single relative component. *)
Definition Path_div (p : Path) (name : string) : Path :=
  {| root := root p; parts := parts p ++ [name] |}.

(** [p.name] *)
Definition Path_name (p : Path) : string := List.last (parts p) "".

(** The second and the third clause of [Path.mkdir]: an [OSError] other
    than a missing directory is let through unless the directory is
    there. *)
Definition unless_is_dir (self : string) (e : exn) : M unit :=
  fun w => if is_dir w self then (Return tt, w) else (Raise e, w).

(** [p.mkdir(parents=True, exist_ok=True)], by the components of [p] in
    reverse: make the directory; if a directory above it is missing, make
    that one in the same way and try once more. *)
Fixpoint mkdir_parents (root : string) (rev_parts : list string) : M unit :=
  let self := fspath (MkPath root (rev rev_parts)) in
  fun w =>
    match os_mkdir self w with
    | (Return tt, w') => (Return tt, w')
    | (Raise e, w') =>
        if isinstance e FileNotFoundError then
          match rev_parts with
          | [] => (Raise e, w')
          | _ :: above =>
              (run mkdir_parents root above ;;
               try_except (os_mkdir self)
                 [ (FileNotFoundError, fun e' => raise e');
                   (OSError, unless_is_dir self) ]) w'
          end
        else if isinstance e OSError then unless_is_dir self e w'
        else (Raise e, w')
    end.

Definition Path_mkdir (p : Path) : M unit :=
  mkdir_parents (root p) (rev (parts p)).

(** ** [scripts/rustvmm_gen.py] *)

(** Map arch used in linux kernel to arch understandable for Rust *)
Definition MAP_RUST_ARCH : gmap string string :=
  <["arm64" := "aarch64"]>
    (<["x86_64" := "x86_64"]> (<["riscv" := "riscv64"]> ∅)).

(** [d[key]] *)
Definition getitem (d : gmap string string) (key : string) : M string :=
  match d !! key with
  | Some v => ret v
  | None => raise (Exn KeyError (Str.repr key))
  end.

(** The parsed command line. *)
Record Args : Type := MkArgs {
  arch : string;
  version : string;
  install_path : option string;
  output_path : Path
}.

(** Where the header of [args.arch] is looked up. *)
Definition header_path_of (src_dir arch : string) : string :=
  OsPath.join (OsPath.dirname src_dir)
              (arch +:+ "_headers/include/asm/unistd_64.h").

Section generate_syscall_command.

(** [prepare_command] only calls into [lib.kernel_source]; it is taken as
    given: some command that returns the kernel source directory. *)
Variable prepare_command : Args -> M string.

Definition generate_syscall_command (args : Args) : M unit :=
  do src_dir <- prepare_command args ;;
  let header_path := header_path_of src_dir (arch args) in
  do syscalls <- generate_syscall_table header_path ;;
  run Path_mkdir (output_path args) ;;
  do rust_arch <- getitem MAP_RUST_ARCH (arch args) ;;
  let output_file_path := Path_div (output_path args) (rust_arch +:+ ".rs") in
  generate_rust_code syscalls (fspath output_file_path).

End generate_syscall_command.

Section prepare_command.

(** The functions of [lib.kernel_source], taken as given. *)
Variable check_kernel_version : string -> M unit.
Variable create_temp_dir : string -> M string.
Variable download_kernel : string -> string -> M string.
Variable extract_kernel : string -> string -> M string.
Variable install_headers : string -> string -> option string -> M string.

Definition prepare_command (args : Args) : M string :=
  run check_kernel_version (version args) ;;
  do temp_dir <- create_temp_dir (version args) ;;
  do tarball <- download_kernel (version args) temp_dir ;;
  do src_dir <- extract_kernel tarball temp_dir ;;
  do installed_header_path <-
    install_headers src_dir (arch args) (install_path args) ;;
  run print (nl +:+ "Successfully installed kernel headers to "
             +:+ installed_header_path) ;;
  ret src_dir.

End prepare_command.

(** ** Notions the statements below use *)

(** What a well-formed define line looks like: the prefix, a name of word
    characters, white space, decimal digits, and then anything that does
    not go on with a digit. *)
Definition define_shape (line name digits : string) : Prop :=
  exists ws tail,
    line = define_prefix +:+ name +:+ ws +:+ digits +:+ tail
    /\ name <> "" /\ Str.all Char.isword name = true
    /\ ws <> "" /\ Str.all Char.isspace ws = true
    /\ digits <> "" /\ Str.all Char.isdecimal digits = true
    /\ Str.starts_in Char.isdecimal tail = false.

(** The name a line defines, when the pattern matches it. *)
Definition line_name (line : string) : option string :=
  fst <$> pattern_match (Str.strip line).

(** The entry a line adds to the table, when it adds one. *)
Definition line_entry (line : string) : option entry :=
  match parse_line line with
  | Return found => found
  | Raise _ => None
  end.

(** A line the loop gets past. *)
Definition line_passes (line : string) : Prop :=
  exists found, parse_line line = Return found.

(** What the second handler of [generate_syscall_table] makes of the
    outcome of the [with] block. *)
Definition reported (o : outcome string) : outcome string :=
  match o with
  | Return table => Return table
  | Raise e =>
      Raise (Exn RuntimeError ("File processing failed: " +:+ exn_str e))
  end.

(** The header of the first testable property, line by line. *)
Definition p1_lines : list string :=
  ["#define __NR_read 0"; "#define __NR_write 1"; "#define __NR_open 2"].

(** [n] times the character [c]. *)
Fixpoint replicate_char (n : nat) (c : ascii) : string :=
  match n with
  | O => ""
  | S n' => String c (replicate_char n' c)
  end.

(** A run of digits one longer than [int] accepts, and a define line that
    carries it. *)
Definition long_digits : string := replicate_char 4301 "1"%char.
Definition long_define : string := define_prefix +:+ "x " +:+ long_digits.

(** Entries compared by name, as the sort key compares them. *)
Definition name_le (a b : entry) : Prop := String.leb (fst a) (fst b) = true.

(** The entries of a table that carry a given name, in table order. *)
Definition named (name : string) (l : list entry) : list entry :=
  filter (fun e => fst e = name) l.

(** The invariant of an entry: a non-empty name of word characters and a
    number that is not negative. *)
Definition valid_entry (e : entry) : Prop :=
  fst e <> "" /\ Str.all Char.isword (fst e) = true /\ 0 <= snd e.

Definition is_newline (c : ascii) : bool := Ascii.eqb c CR || Ascii.eqb c LF.

(** A line without its terminator holds neither CR nor LF. *)
Definition no_newline (l : string) : Prop :=
  Str.all (fun c => negb (is_newline c)) l = true.

(** A line terminator: LF, or CR LF. *)
Definition eol (crlf : bool) : string := if crlf then String CR nl else nl.

(** The text of a file given line by line, each line with its terminator. *)
Definition text_of_lines (lines : list (string * bool)) : string :=
  foldr (fun l acc => fst l +:+ eol (snd l) +:+ acc) "" lines.

Definition is_sep (c : ascii) : bool := Ascii.eqb c OsPath.sep.

(** The loop body on a line that is stripped already. *)
Definition parse_stripped (s : string) : outcome (option entry) :=
  match pattern_match s with
  | Some (name, digits) =>
      match Str.int digits with
      | Return num => Return (Some (name, num))
      | Raise e => Raise e
      end
  | None => Return None
  end.

(** [open(path, "w")] succeeds in [w], or raises [e] there. *)
Definition opens (w : world) (path : string) : Prop :=
  fst (open_for_writing path w) = Return tt.
Definition open_raises (w : world) (path : string) (e : exn) : Prop :=
  fst (open_for_writing path w) = Raise e.

(** The two handlers of [generate_rust_code]. *)
Definition emission_handlers : list (exn_class * (exn -> M unit)) :=
  [ (CalledProcessError, fun _ =>
       raise (Exn RuntimeError "rustfmt formatting failed"));
    (IOError, fun e =>
       raise (Exn RuntimeError ("File write error: " +:+ exn_str e))) ].

(** A character outside ASCII, and what writing it raises when the
    encoding of the output file is ASCII. *)
Definition e_acute : string := String "233"%char "".
Definition ascii_encode_error : exn :=
  Exn UnicodeEncodeError
    ("'ascii' codec can't encode character '"
     +:+ String Str.backslash "xe9"
     +:+ "' in position 116: ordinal not in range(128)").

(** A world in which the output file is written in ASCII: writing
    [e_acute] to [out.rs] raises and leaves the file empty. *)
Definition ascii_only_world : world :=
  World ∅ ∅ ∅ {[ "out.rs" := (ascii_encode_error, "") ]}
        (Some (fun text => (0, text))) [].

(** From [w] to [w'] nothing changed but the set of directories, and
    that only grew. *)
Definition only_dirs_grow (w w' : world) : Prop :=
  files w' = files w /\ faults w' = faults w
  /\ write_faults w' = write_faults w /\ rustfmt w' = rustfmt w
  /\ stdout w' = stdout w /\ dirs w ⊆ dirs w'.

(** * Properties *)

(** ** Strings *)

Lemma app_cons c s t : String c s +:+ t = String c (s +:+ t).
Proof. reflexivity. Qed.

Lemma app_nil_l s : "" +:+ s = s.
Proof. reflexivity. Qed.

Lemma app_nil_r s : s +:+ "" = s.
Proof. induction s as [|c s IH]; [done|]. by rewrite app_cons, IH. Qed.

Lemma app_assoc s t u : (s +:+ t) +:+ u = s +:+ t +:+ u.
Proof. induction s as [|c s IH]; [done|]. by rewrite !app_cons, IH. Qed.

Lemma all_app p s t : Str.all p (s +:+ t) = Str.all p s && Str.all p t.
Proof.
  induction s as [|c s IH]; [done|].
  rewrite app_cons. simpl. by rewrite IH, andb_assoc.
Qed.

Lemma prefix_app l s :
  String.prefix l s = true <-> exists rest, s = l +:+ rest.
Proof.
  revert s. induction l as [|a l IH]; intros s.
  - split; [exists s; done|]. by destruct s.
  - destruct s as [|c s]; simpl.
    + split; [done|]. by intros [rest ?].
    + destruct (ascii_dec a c) as [->|Hne].
      * rewrite IH. split; intros [rest Hr]; exists rest.
        -- by rewrite app_cons, Hr.
        -- rewrite app_cons in Hr. congruence.
      * split; [done|]. intros [rest Hr]. rewrite app_cons in Hr. congruence.
Qed.

(** ** Character classes: the three classes of the pattern do not overlap
    where the pattern puts them next to each other *)

Lemma space_not_word c : Char.isspace c && Char.isword c = false.
Proof. by destruct c as [[] [] [] [] [] [] [] []]. Qed.

Lemma decimal_not_space c : Char.isdecimal c && Char.isspace c = false.
Proof. by destruct c as [[] [] [] [] [] [] [] []]. Qed.

Lemma decimal_value c :
  Char.isdecimal c = true -> 0 <= Char.digit_value c <= 9.
Proof. destruct c as [[] [] [] [] [] [] [] []]; try done; by vm_compute. Qed.

(** ** The backtracking search finds the one decomposition there is *)

Lemma lit_spec {A} l s (k : string -> option A) a :
  Re.lit l s k = Some a <-> exists rest, s = l +:+ rest /\ k rest = Some a.
Proof.
  revert s. induction l as [|b l IH]; intros s; simpl.
  - split; [by exists s|]. by intros (rest & -> & ?).
  - destruct s as [|c s].
    + split; [done|]. by intros (rest & ? & ?).
    + destruct (Ascii.eqb_spec b c) as [->|Hne].
      * rewrite IH. split; intros (rest & Hs & Hk); exists rest.
        -- by rewrite app_cons, Hs.
        -- rewrite app_cons in Hs. split; congruence.
      * split; [done|]. intros (rest & Hs & _).
        rewrite app_cons in Hs. congruence.
Qed.

Lemma plus_no_start {A} cls s (k : string -> string -> option A) :
  Str.starts_in cls s = false -> Re.plus cls s k = None.
Proof. destruct s as [|c r]; simpl; [done|]. by intros ->. Qed.

(** Whatever [X+] returns comes from a non-empty run of [X]. *)
Lemma plus_inv {A} cls s (k : string -> string -> option A) a :
  Re.plus cls s k = Some a ->
  exists m rest, s = m +:+ rest /\ m <> "" /\ Str.all cls m = true
                 /\ k m rest = Some a.
Proof.
  revert k. induction s as [|c r IH]; intros k; simpl; [done|].
  destruct (cls c) eqn:Hc; [|done].
  destruct (Re.plus cls r _) as [a'|] eqn:Hrec.
  - intros [= ->]. apply IH in Hrec as (m & rest & -> & _ & Hm & Hk).
    exists (String c m), rest. simpl. by rewrite Hc, Hm.
  - intros Hk. exists (String c ""), r. simpl. by rewrite Hc.
Qed.

(** The longest run is the first one tried. *)
Lemma plus_longest {A} cls m rest (k : string -> string -> option A) a :
  m <> "" -> Str.all cls m = true -> Str.starts_in cls rest = false ->
  k m rest = Some a ->
  Re.plus cls (m +:+ rest) k = Some a.
Proof.
  revert k. induction m as [|c m IH]; intros k Hne Hall Hrest Hk; [done|].
  simpl in Hall. apply andb_true_iff in Hall as [Hc Hall].
  rewrite app_cons. simpl. rewrite Hc.
  destruct m as [|c' m'].
  - rewrite app_nil_l, plus_no_start by done. done.
  - by rewrite (IH (fun m0 rest0 => k (String c m0) rest0)).
Qed.

(** When the continuation accepts anything, [X+] takes the longest run. *)
Lemma plus_last {A} cls s (f : string -> A) a :
  Re.plus cls s (fun m _ => Some (f m)) = Some a ->
  exists m rest, s = m +:+ rest /\ m <> "" /\ Str.all cls m = true
                 /\ Str.starts_in cls rest = false /\ a = f m.
Proof.
  revert f. induction s as [|c r IH]; intros f; simpl; [done|].
  destruct (cls c) eqn:Hc; [|done].
  destruct (Re.plus cls r _) as [a'|] eqn:Hrec.
  - intros [= ->].
    apply (IH (fun m => f (String c m))) in Hrec
      as (m & rest & -> & _ & Hm & Hrest & ->).
    exists (String c m), rest. simpl. by rewrite Hc, Hm.
  - intros [= <-]. exists (String c ""), r. simpl. rewrite Hc.
    repeat split; try done.
    destruct r as [|c' r']; [done|]. simpl in *.
    destruct (cls c'); [|done]. by destruct (Re.plus cls r' _).
Qed.

Lemma starts_in_app_ne p q s t :
  (forall c, p c && q c = false) -> s <> "" -> Str.all p s = true ->
  Str.starts_in q (s +:+ t) = false.
Proof.
  intros Hpq Hne Hall. destruct s as [|c s]; [done|].
  simpl in *. apply andb_true_iff in Hall as [Hc _].
  specialize (Hpq c). rewrite Hc in Hpq. done.
Qed.

Lemma pattern_match_spec line name digits :
  pattern_match line = Some (name, digits) <-> define_shape line name digits.
Proof.
  unfold pattern_match, define_shape. split.
  - intros H. apply lit_spec in H as (s1 & -> & H).
    apply plus_inv in H as (name' & s2 & -> & Hn1 & Hn2 & H).
    apply plus_inv in H as (ws & s3 & -> & Hw1 & Hw2 & H).
    apply plus_last in H as (ds & tail & -> & Hd1 & Hd2 & Ht & [= -> ->]).
    by exists ws, tail.
  - intros (ws & tail & -> & Hn1 & Hn2 & Hw1 & Hw2 & Hd1 & Hd2 & Ht).
    apply lit_spec. eexists; split; [done|].
    apply plus_longest; [done|done| |].
    { apply (starts_in_app_ne Char.isspace); [apply space_not_word|done..]. }
    apply plus_longest; [done|done| |].
    { apply (starts_in_app_ne Char.isdecimal);
        [apply decimal_not_space|done..]. }
    by apply plus_longest.
Qed.

Lemma int_from_nonneg acc ds :
  0 <= acc -> Str.all Char.isdecimal ds = true -> 0 <= Str.int_from acc ds.
Proof.
  revert acc. induction ds as [|c ds IH]; intros acc Hacc Hall; [done|].
  simpl in *. apply andb_true_iff in Hall as [Hc Hall].
  apply IH; [|done]. pose proof (decimal_value c Hc). lia.
Qed.


(** ** The loop body *)

Lemma int_cases digits :
  Str.int digits
  = if (4300 <? String.length digits)%nat
    then Raise (Exn ValueError (Str.int_limit_message (String.length digits)))
    else Return (Str.int_value digits).
Proof. reflexivity. Qed.

(** The guard [startswith] lets through every line the pattern matches. *)
Lemma parse_line_capture line :
  parse_line line
  = match pattern_match (Str.strip line) with
    | Some (name, digits) =>
        match Str.int digits with
        | Return num => Return (Some (name, num))
        | Raise e => Raise e
        end
    | None => Return None
    end.
Proof.
  unfold parse_line, scan_line.
  destruct (Str.startswith _ _) eqn:Hstart; [done|].
  destruct (pattern_match _) as [[name digits]|] eqn:Hm; [|done].
  apply pattern_match_spec in Hm as (ws & tail & Hline & _).
  assert (Str.startswith (Str.strip line) define_prefix = true) as Htrue.
  { apply prefix_app. rewrite Hline. by eexists. }
  congruence.
Qed.

(** When the loop body yields an entry. *)
Lemma parse_line_shape line name num :
  parse_line line = Return (Some (name, num)) <->
  exists digits,
    define_shape (Str.strip line) name digits
    /\ (String.length digits <= 4300)%nat
    /\ num = Str.int_value digits.
Proof.
  rewrite parse_line_capture. split.
  - destruct (pattern_match _) as [[name' digits]|] eqn:Hm; [|done].
    rewrite int_cases.
    destruct (Nat.ltb_spec 4300 (String.length digits)); [done|].
    intros [= -> <-]. exists digits. by apply pattern_match_spec in Hm.
  - intros (digits & Hshape & Hlen & ->).
    apply pattern_match_spec in Hshape. rewrite Hshape, int_cases.
    destruct (Nat.ltb_spec 4300 (String.length digits)); [lia|done].
Qed.

(** When the loop body raises. *)
Lemma parse_line_raises line e :
  parse_line line = Raise e <->
  exists name digits,
    define_shape (Str.strip line) name digits
    /\ (4300 < String.length digits)%nat
    /\ e = Exn ValueError (Str.int_limit_message (String.length digits)).
Proof.
  rewrite parse_line_capture. split.
  - destruct (pattern_match _) as [[name digits]|] eqn:Hm; [|done].
    rewrite int_cases.
    destruct (Nat.ltb_spec 4300 (String.length digits)); [|done].
    intros [= <-]. exists name, digits. by apply pattern_match_spec in Hm.
  - intros (name & digits & Hshape & Hlen & ->).
    apply pattern_match_spec in Hshape. rewrite Hshape, int_cases.
    destruct (Nat.ltb_spec 4300 (String.length digits)); [done|lia].
Qed.

Lemma parse_line_raise_class line e :
  parse_line line = Raise e -> exn_cls e = ValueError.
Proof. by intros (? & ? & _ & _ & ->)%parse_line_raises. Qed.

(** ** The loop *)

Lemma parse_lines_cons line lines :
  parse_lines (line :: lines)
  = match parse_line line with
    | Raise e => Raise e
    | Return found =>
        match parse_lines lines with
        | Raise e => Raise e
        | Return syscalls =>
            Return (match found with
                    | Some e => e :: syscalls
                    | None => syscalls
                    end)
        end
    end.
Proof. reflexivity. Qed.

Lemma parse_lines_skip before line after :
  parse_line line = Return None ->
  parse_lines (before ++ line :: after) = parse_lines (before ++ after).
Proof.
  intros Hline. induction before as [|l before IH]; simpl.
  - by rewrite Hline; destruct (parse_lines after).
  - by rewrite IH.
Qed.

(** The loop ends well exactly when every line passes, and then has the
    entries of the lines, in order. *)
Lemma parse_lines_Return lines syscalls :
  parse_lines lines = Return syscalls <->
  Forall line_passes lines /\ syscalls = omap line_entry lines.
Proof.
  revert syscalls. induction lines as [|line lines IH]; intros syscalls.
  - simpl. split; [by intros [= <-]|by intros [_ ->]].
  - rewrite parse_lines_cons, Forall_cons. unfold line_passes at 1.
    change (omap line_entry (line :: lines))
      with (match line_entry line with
            | Some e => e :: omap line_entry lines
            | None => omap line_entry lines
            end).
    assert (line_entry line
            = match parse_line line with
              | Return found => found
              | Raise _ => None
              end) as -> by done.
    destruct (parse_line line) as [found|e].
    + destruct (parse_lines lines) as [rest|e] eqn:Hrest.
      * destruct (proj1 (IH rest) eq_refl) as [Hall ->].
        split; [|by intros [_ ->]].
        intros [= <-]. split; [split; [by eexists|done]|done].
      * split; [done|]. intros [[_ Hall] _].
        discriminate (proj2 (IH _) (conj Hall eq_refl)).
    + split; [done|]. by intros [[[? ?] _] _].
Qed.

Lemma parse_lines_Raise lines :
  (exists e, parse_lines lines = Raise e) <-> ~ Forall line_passes lines.
Proof.
  destruct (parse_lines lines) as [syscalls|e] eqn:Hp.
  - apply parse_lines_Return in Hp as [Hall _].
    split; [by intros [? ?]|done].
  - split; [|eauto]. intros _ Hall.
    pose proof (proj2 (parse_lines_Return lines _) (conj Hall eq_refl)).
    congruence.
Qed.

Lemma parse_lines_raise_class lines e :
  parse_lines lines = Raise e -> exn_cls e = ValueError.
Proof.
  induction lines as [|line lines IH]; [done|].
  rewrite parse_lines_cons.
  destruct (parse_line line) as [found|e'] eqn:Hline.
  - destruct (parse_lines lines); [done|]. intros [= ->]. by apply IH.
  - intros [= ->]. by apply parse_line_raise_class in Hline.
Qed.

(** ** Reading a header *)

Lemma table_raise_class text e :
  syscall_table_of_text text = Raise e -> exn_cls e = ValueError.
Proof.
  unfold syscall_table_of_text, table_of_lines.
  destruct (parse_lines _) eqn:Hp; [done|]. intros [= <-].
  by apply parse_lines_raise_class in Hp.
Qed.

Lemma generate_syscall_table_read path text w :
  faults w !! path = None -> files w !! path = Some text ->
  generate_syscall_table path w = (reported (syscall_table_of_text text), w).
Proof.
  intros Hf Hs.
  unfold generate_syscall_table, try_except, bind, read_text, lift.
  rewrite Hf, Hs.
  destruct (syscall_table_of_text text) as [table|e] eqn:Ht; [done|].
  apply table_raise_class in Ht. simpl. unfold isinstance. by rewrite Ht.
Qed.

Lemma generate_syscall_table_ok path text table w :
  faults w !! path = None -> files w !! path = Some text ->
  syscall_table_of_text text = Return table ->
  generate_syscall_table path w = (Return table, w).
Proof.
  intros Hf Hs Ht. by rewrite (generate_syscall_table_read _ _ _ Hf Hs), Ht.
Qed.

(** C1: for the header made of the three lines [#define __NR_read 0],
    [#define __NR_write 1], [#define __NR_open 2] (with or without a final
    newline), the table is [("open",2); ("read",0); ("write",1)] and
    [generate_syscall_table] returns the literals of these three entries in
    alphabetical order. *)
Theorem C1_three_defines path w text :
  text = Str.join nl p1_lines \/ text = Str.join nl p1_lines +:+ nl ->
  faults w !! path = None -> files w !! path = Some text ->
  (exists syscalls,
     parse_lines (file_lines text) = Return syscalls
     /\ sort_syscalls syscalls = [("open", 2); ("read", 0); ("write", 1)])
  /\ generate_syscall_table path w
     = (Return ("(" +:+ dquote +:+ "open" +:+ dquote +:+ ", 2), ("
                +:+ dquote +:+ "read" +:+ dquote +:+ ", 0), ("
                +:+ dquote +:+ "write" +:+ dquote +:+ ", 1),"), w).
Proof.
  intros Htext Hf Hs. split.
  - exists [("read", 0); ("write", 1); ("open", 2)].
    destruct Htext as [-> | ->]; split; by vm_compute.
  - apply (generate_syscall_table_ok path text _ w Hf Hs).
    destruct Htext as [-> | ->]; by vm_compute.
Qed.

Lemma C1_three_defines_witness :
  generate_syscall_table "unistd_64.h"
    (World {[ "unistd_64.h" := Str.join nl p1_lines +:+ nl ]} ∅ ∅ ∅ None [])
  = (Return ("(" +:+ dquote +:+ "open" +:+ dquote +:+ ", 2), ("
             +:+ dquote +:+ "read" +:+ dquote +:+ ", 0), ("
             +:+ dquote +:+ "write" +:+ dquote +:+ ", 1),"),
     World {[ "unistd_64.h" := Str.join nl p1_lines +:+ nl ]} ∅ ∅ ∅ None []).
Proof.
  apply (C1_three_defines "unistd_64.h" _ (Str.join nl p1_lines +:+ nl));
    [right; reflexivity | reflexivity | reflexivity].
Defined.

Lemma parse_lines_raising_line before line after e :
  parse_line line = Raise e ->
  exists e', parse_lines (before ++ line :: after) = Raise e'.
Proof.
  intros Hline. apply parse_lines_Raise. intros Hall.
  apply Forall_app in Hall as [_ Hall]. apply Forall_cons in Hall as [[? ?] _].
  congruence.
Qed.

(** C2 (amended): a line that, once stripped, begins with [#define __NR_]
    yields an entry exactly when the prefix is followed by a non-empty name
    of word characters, at least one white-space character and a run of at
    least one and at most 4300 decimal digits; the entry is that name with
    the value of the digits.  When the run of digits is longer, [int]
    raises and reading the file fails with [File processing failed].  Any
    other line with the prefix, such as [#define __NR_bad], yields nothing:
    the table is the same as if the line were not there. *)
Theorem C2_define_lines :
  (forall line name num,
     parse_line line = Return (Some (name, num)) <->
     exists digits,
       define_shape (Str.strip line) name digits
       /\ (String.length digits <= 4300)%nat
       /\ num = Str.int_value digits /\ 0 <= num)
  /\ (forall line name digits,
        define_shape (Str.strip line) name digits ->
        (4300 < String.length digits)%nat ->
        parse_line line
        = Raise (Exn ValueError
                   (Str.int_limit_message (String.length digits)))
        /\ forall before after path w text,
             faults w !! path = None -> files w !! path = Some text ->
             file_lines text = before ++ line :: after ->
             exists cause,
               generate_syscall_table path w
               = (Raise (Exn RuntimeError
                           ("File processing failed: " +:+ cause)), w))
  /\ (forall line,
        Str.startswith (Str.strip line) define_prefix = true ->
        (forall name digits, ~ define_shape (Str.strip line) name digits) ->
        parse_line line = Return None
        /\ forall before after,
             parse_lines (before ++ line :: after)
             = parse_lines (before ++ after))
  /\ parse_line "#define __NR_bad" = Return None.
Proof.
  split; [|split; [|split; [|by vm_compute]]].
  - intros line name num. rewrite parse_line_shape.
    split; intros (digits & Hshape & Hlen & Hnum); exists digits.
    + repeat split; try done. subst num.
      destruct Hshape as (? & ? & _ & _ & _ & _ & _ & _ & Hd & _).
      by apply int_from_nonneg.
    + by destruct Hnum.
  - intros line name digits Hshape Hlen.
    assert (parse_line line
            = Raise (Exn ValueError
                       (Str.int_limit_message (String.length digits))))
      as Hline.
    { apply parse_line_raises. by exists name, digits. }
    split; [done|].
    intros before after path w text Hf Hs Hlines.
    rewrite (generate_syscall_table_read _ _ _ Hf Hs).
    unfold syscall_table_of_text, table_of_lines. rewrite Hlines.
    destruct (parse_lines_raising_line before line after _ Hline)
      as [e' ->].
    simpl. by eexists.
  - intros line _ Hno.
    assert (parse_line line = Return None) as Hnone.
    { rewrite parse_line_capture.
      destruct (pattern_match _) as [[name digits]|] eqn:Hm; [|done].
      apply pattern_match_spec in Hm. by destruct (Hno name digits). }
    split; [done|]. intros. by apply parse_lines_skip.
Qed.

Lemma C2_define_lines_witness :
  parse_line "  #define __NR_openat   257 /* since 2.6.16 */  "
  = Return (Some ("openat", 257))
  /\ parse_line " #define __NR_bad_0  " = Return None.
Proof.
  destruct C2_define_lines as (Hiff & _ & Hskip & _). split.
  - apply Hiff. exists "257".
    split; [exists "   ", " /* since 2.6.16 */"; by vm_compute|].
    split; [simpl; lia|]. split; [reflexivity|lia].
  - apply Hskip; [reflexivity|].
    intros name digits Hshape.
    assert (line_name " #define __NR_bad_0  " = Some name) as Hname.
    { unfold line_name. apply pattern_match_spec in Hshape.
      by rewrite Hshape. }
    discriminate Hname.
Defined.

(** The claim without the bound on the digits fails: the line
    [#define __NR_x] followed by a space and 4301 digits has the shape of a
    define line, and the loop body raises instead of yielding the entry. *)
Lemma C2_counterexample :
  define_shape (Str.strip long_define) "x" long_digits
  /\ parse_line long_define
     <> Return (Some ("x", Str.int_value long_digits))
  /\ parse_line long_define
     = Raise (Exn ValueError (Str.int_limit_message 4301)).
Proof.
  assert (parse_line long_define
          = Raise (Exn ValueError (Str.int_limit_message 4301))) as Hraise.
  { by vm_compute. }
  split; [|split; [rewrite Hraise; discriminate|exact Hraise]].
  exists " ", "". split; [by vm_compute|].
  repeat split; try discriminate; by vm_compute.
Qed.

(** C7: a line that, once stripped, does not begin with [#define __NR_] is
    ignored without consulting the pattern: whatever the matcher, the loop
    body yields nothing for it and does not raise; the loop ends as if the
    line were not in the file, and so does [generate_syscall_table]. *)
Theorem C7_other_lines_ignored line :
  Str.startswith (Str.strip line) define_prefix = false ->
  (forall re_match, scan_line re_match line = Return None)
  /\ (forall before after,
        parse_lines (before ++ line :: after) = parse_lines (before ++ after))
  /\ (forall before after path w text,
        faults w !! path = None -> files w !! path = Some text ->
        file_lines text = before ++ line :: after ->
        generate_syscall_table path w
        = (reported (table_of_lines (before ++ after)), w)).
Proof.
  intros Hstart.
  assert (Hscan : forall re_match, scan_line re_match line = Return None).
  { intros re_match. unfold scan_line. by rewrite Hstart. }
  split; [done|]. split.
  - intros. apply parse_lines_skip, Hscan.
  - intros before after path w text Hf Hs Hlines.
    rewrite (generate_syscall_table_read path text w Hf Hs).
    unfold syscall_table_of_text, table_of_lines. rewrite Hlines.
    by rewrite parse_lines_skip by apply Hscan.
Qed.

Lemma C7_other_lines_ignored_witness :
  (forall re_match,
     scan_line re_match "#define __NR3264_fcntl 25" = Return None)
  /\ parse_lines (["#define __NR_read 0"]
                  ++ "#define __NR3264_fcntl 25" :: ["#define __NR_write 1"])
     = parse_lines (["#define __NR_read 0"] ++ ["#define __NR_write 1"]).
Proof.
  split.
  - apply (C7_other_lines_ignored "#define __NR3264_fcntl 25"). reflexivity.
  - apply (C7_other_lines_ignored "#define __NR3264_fcntl 25"). reflexivity.
Defined.
(** ** The sort: sorted, a permutation, stable, and the only such list *)

Section list_sort_facts.
Context {A K : Type} `{EqDecision K} (key : A -> K) (le : K -> K -> bool).
Hypothesis le_total : forall a b, le a b = true \/ le b a = true.
Hypothesis le_trans :
  forall a b c, le a b = true -> le b c = true -> le a c = true.
Hypothesis le_antisym : forall a b, le a b = true -> le b a = true -> a = b.

Let by_key (a b : A) : Prop := le (key a) (key b) = true.
Let with_key (k : K) (l : list A) : list A := filter (fun a => key a = k) l.

Lemma le_refl a : le a a = true.
Proof. by destruct (le_total a a). Qed.

Lemma by_key_trans : Transitive by_key.
Proof. intros a b c. apply le_trans. Qed.

Lemma sort_insert_perm x l : sort_insert key le x l ≡ₚ x :: l.
Proof.
  induction l as [|y l IH]; simpl; [done|].
  destruct (le (key x) (key y)); [done|].
  rewrite IH. apply Permutation_swap.
Qed.

Lemma list_sort_perm l : list_sort key le l ≡ₚ l.
Proof.
  induction l as [|x l IH]; simpl; [done|].
  by rewrite sort_insert_perm, IH.
Qed.

Lemma sort_insert_hd a x l :
  by_key a x -> HdRel by_key a l -> HdRel by_key a (sort_insert key le x l).
Proof.
  intros Hax Hal. destruct l as [|y l]; simpl; [by constructor|].
  destruct (le (key x) (key y)); constructor; [done|].
  by inversion Hal.
Qed.

Lemma sort_insert_sorted x l :
  Sorted by_key l -> Sorted by_key (sort_insert key le x l).
Proof.
  induction 1 as [|y l Hl IH Hhd]; simpl.
  - by repeat constructor.
  - destruct (le (key x) (key y)) eqn:Hxy.
    + by repeat constructor.
    + constructor; [done|]. apply sort_insert_hd; [|done].
      unfold by_key. destruct (le_total (key x) (key y)); congruence.
Qed.

Lemma list_sort_sorted l : Sorted by_key (list_sort key le l).
Proof.
  induction l as [|x l IH]; simpl; [constructor|].
  by apply sort_insert_sorted.
Qed.

Lemma sort_insert_stable k x l :
  with_key k (sort_insert key le x l) = with_key k (x :: l).
Proof.
  unfold with_key. induction l as [|y l IH]; simpl; [done|].
  destruct (le (key x) (key y)) eqn:Hxy; [done|].
  rewrite (filter_cons _ y), IH, !(filter_cons _ x), (filter_cons _ y).
  destruct (decide (key y = k)) as [Hy|Hy],
           (decide (key x = k)) as [Hx|Hx]; try done.
  rewrite Hx, Hy, le_refl in Hxy. done.
Qed.

Lemma list_sort_stable k l : with_key k (list_sort key le l) = with_key k l.
Proof.
  induction l as [|x l IH]; simpl; [done|].
  rewrite sort_insert_stable. unfold with_key in *.
  by rewrite !(filter_cons _ x), IH.
Qed.

(** Two lists sorted by key that agree, key by key, on the order of their
    elements are the same list. *)
Lemma stable_sorted_unique l1 l2 :
  Sorted by_key l1 -> Sorted by_key l2 ->
  (forall k, with_key k l1 = with_key k l2) -> l1 = l2.
Proof.
  intros H1 H2.
  apply (Sorted_StronglySorted _ (Transitive0 := by_key_trans)) in H1, H2.
  revert l2 H2. induction H1 as [|x t1 Ht1 IH Hx]; intros l2 H2 Hk.
  - destruct l2 as [|y t2]; [done|].
    specialize (Hk (key y)). unfold with_key in Hk.
    by rewrite filter_nil, filter_cons_True in Hk.
  - destruct H2 as [|y t2 Ht2 Hy].
    { specialize (Hk (key x)). unfold with_key in Hk.
      by rewrite filter_nil, filter_cons_True in Hk. }
    assert (key x = key y) as Hxy.
    { destruct (decide (key x = key y)) as [|Hne]; [done|].
      apply le_antisym.
      - pose proof (Hk (key y)) as Hky. unfold with_key in Hky.
        rewrite filter_cons_False, filter_cons_True in Hky by done.
        assert (y ∈ t1) as Hin.
        { eapply (proj1 (list_elem_of_filter _ _ _)).
          rewrite Hky. by left. }
        rewrite Forall_forall in Hx. by apply Hx.
      - pose proof (Hk (key x)) as Hkx. unfold with_key in Hkx.
        rewrite filter_cons_True, filter_cons_False in Hkx by done.
        assert (x ∈ t2) as Hin.
        { eapply (proj1 (list_elem_of_filter _ _ _)).
          rewrite <-Hkx. by left. }
        rewrite Forall_forall in Hy. by apply Hy. }
    assert (x = y) as ->.
    { specialize (Hk (key x)). unfold with_key in Hk.
      rewrite !filter_cons_True in Hk by done. congruence. }
    f_equal. apply IH; [done|]. intros k. specialize (Hk k).
    unfold with_key in *. rewrite !(filter_cons _ y) in Hk.
    destruct (decide (key y = k)); congruence.
Qed.

End list_sort_facts.

(** ** The sort of [generate_syscall_table] *)

Lemma leb_trans a b c :
  String.leb a b = true -> String.leb b c = true -> String.leb a c = true.
Proof.
  intros Hab Hbc. apply Is_true_true.
  transitivity b; by apply Is_true_true.
Qed.

Lemma name_le_trans : Transitive name_le.
Proof. intros a b c. apply leb_trans. Qed.

Lemma sort_syscalls_sorted l : Sorted name_le (sort_syscalls l).
Proof. apply (list_sort_sorted fst String.leb String.leb_total). Qed.

Lemma sort_syscalls_perm l : sort_syscalls l ≡ₚ l.
Proof. apply list_sort_perm. Qed.

Lemma sort_syscalls_stable name l :
  named name (sort_syscalls l) = named name l.
Proof. apply (list_sort_stable fst String.leb String.leb_total). Qed.

Lemma sort_syscalls_unique l l' :
  Sorted name_le l' -> (forall name, named name l' = named name l) ->
  l' = sort_syscalls l.
Proof.
  intros Hs Hn.
  apply (stable_sorted_unique fst String.leb leb_trans String.leb_antisym);
    [done|apply sort_syscalls_sorted|].
  intros name. change (named name l' = named name (sort_syscalls l)).
  rewrite Hn. symmetry. apply sort_syscalls_stable.
Qed.

Lemma NoDup_fmap_eq {A B} (f : A -> B) l x y :
  NoDup (f <$> l) -> x ∈ l -> y ∈ l -> f x = f y -> x = y.
Proof.
  induction l as [|z l IH]; simpl; [by intros _ ?%elem_of_nil|].
  rewrite NoDup_cons, !elem_of_cons.
  intros [Hz Hnd] [->|Hx] [->|Hy] Hf; auto.
  - destruct Hz. rewrite Hf. by apply list_elem_of_fmap_2.
  - destruct Hz. rewrite <-Hf. by apply list_elem_of_fmap_2.
Qed.

(** With pairwise distinct names the sorted table does not depend on the
    order of the entries. *)
Lemma sort_syscalls_order_irrelevant l1 l2 :
  l1 ≡ₚ l2 -> NoDup (fst <$> l1) -> sort_syscalls l1 = sort_syscalls l2.
Proof.
  intros Hperm Hnd.
  apply (Sorted_unique_strong name_le (Transitive0 := name_le_trans));
    [|apply sort_syscalls_sorted..|by rewrite !sort_syscalls_perm].
  intros x1 x2 Hx1 Hx2 H12 H21.
  rewrite sort_syscalls_perm in Hx1. rewrite sort_syscalls_perm, <-Hperm in Hx2.
  apply (NoDup_fmap_eq fst l1); [done..|].
  by apply String.leb_antisym.
Qed.

(** Only the stripped text of a line matters to the loop body. *)
Lemma parse_line_stripped line :
  parse_line line = parse_stripped (Str.strip line).
Proof. apply parse_line_capture. Qed.

Lemma stripped_perm lines1 lines2 :
  Str.strip <$> lines1 ≡ₚ Str.strip <$> lines2 ->
  (Forall line_passes lines1 <-> Forall line_passes lines2)
  /\ omap line_entry lines1 ≡ₚ omap line_entry lines2.
Proof.
  intros Hperm.
  set (passes := fun s => exists found, parse_stripped s = Return found).
  set (found_in := fun s => match parse_stripped s with
                            | Return found => found
                            | Raise _ => None
                            end).
  assert (Hpass : forall ls : list string,
            Forall line_passes ls <-> Forall passes (Str.strip <$> ls)).
  { intros ls. rewrite Forall_fmap. apply Forall_iff. intros l.
    unfold line_passes, passes. simpl. by rewrite parse_line_stripped. }
  assert (Hfound : forall ls : list string,
            omap line_entry ls = omap found_in (Str.strip <$> ls)).
  { induction ls as [|l ls IH]; [done|]. rewrite fmap_cons.
    change (omap line_entry (l :: ls))
      with (match line_entry l with
            | Some e => e :: omap line_entry ls
            | None => omap line_entry ls
            end).
    change (omap found_in (Str.strip l :: (Str.strip <$> ls)))
      with (match found_in (Str.strip l) with
            | Some e => e :: omap found_in (Str.strip <$> ls)
            | None => omap found_in (Str.strip <$> ls)
            end).
    rewrite IH. unfold line_entry, found_in.
    by rewrite parse_line_stripped. }
  split.
  - by rewrite !Hpass, Hperm.
  - by rewrite !Hfound, Hperm.
Qed.

(** When every line passes, the names of the entries are the names the
    pattern finds. *)
Lemma entry_names lines :
  Forall line_passes lines ->
  fst <$> omap line_entry lines = omap line_name lines.
Proof.
  induction 1 as [|l ls [found Hl] _ IH]; [done|].
  change (omap line_entry (l :: ls))
    with (match line_entry l with
          | Some e => e :: omap line_entry ls
          | None => omap line_entry ls
          end).
  change (omap line_name (l :: ls))
    with (match line_name l with
          | Some n => n :: omap line_name ls
          | None => omap line_name ls
          end).
  assert (line_entry l = found) as -> by (unfold line_entry; by rewrite Hl).
  assert (line_name l = fst <$> pattern_match (Str.strip l)) as -> by done.
  rewrite parse_line_capture in Hl.
  destruct (pattern_match (Str.strip l)) as [[name digits]|].
  - destruct (Str.int digits); [|done].
    injection Hl as <-. rewrite fmap_cons. simpl. by rewrite IH.
  - injection Hl as <-. done.
Qed.

Lemma table_of_lines_Return lines table :
  table_of_lines lines = Return table <->
  Forall line_passes lines /\ table = serialize (omap line_entry lines).
Proof.
  unfold table_of_lines.
  destruct (parse_lines lines) as [syscalls|e] eqn:Hp.
  - apply parse_lines_Return in Hp as [Hall ->].
    split; [by intros [= <-]|by intros [_ ->]].
  - split; [done|]. intros [Hall _].
    pose proof (proj2 (parse_lines_Return lines _) (conj Hall eq_refl)).
    congruence.
Qed.

Lemma table_of_lines_Raise lines :
  (exists e, table_of_lines lines = Raise e) <-> ~ Forall line_passes lines.
Proof.
  rewrite <-parse_lines_Raise. unfold table_of_lines.
  destruct (parse_lines lines); split; intros [e' He]; try done; eauto.
Qed.

Lemma reported_Return o table : reported o = Return table <-> o = Return table.
Proof. destruct o; simpl; split; congruence. Qed.

(** C3: the entries are sorted by name before they are rendered; the sort
    neither drops nor merges entries (the sorted table is a permutation of
    the parsed one, so a name defined twice is there twice); entries of one
    name keep their parse order; and the sorted table is the only list
    with these properties. *)
Theorem C3_sorted_stable (syscalls : list entry) :
  Sorted name_le (sort_syscalls syscalls)
  /\ sort_syscalls syscalls ≡ₚ syscalls
  /\ (forall name,
        named name (sort_syscalls syscalls) = named name syscalls)
  /\ (forall l,
        Sorted name_le l ->
        (forall name, named name l = named name syscalls) ->
        l = sort_syscalls syscalls)
  /\ serialize syscalls
     = Str.join " " (render_entry <$> sort_syscalls syscalls).
Proof.
  split; [apply sort_syscalls_sorted|].
  split; [apply sort_syscalls_perm|].
  split; [intros; apply sort_syscalls_stable|].
  split; [intros; by apply sort_syscalls_unique|done].
Qed.

(** The order is by code point, hence case-sensitive, and a name defined
    twice stays twice, first definition first. *)
Example sort_syscalls_duplicates :
  sort_syscalls [("write", 1); ("_exit", 60); ("read", 0); ("Zeta", 9);
                 ("write", 7); ("rea", 3)]
  = [("Zeta", 9); ("_exit", 60); ("rea", 3); ("read", 0); ("write", 1);
     ("write", 7)].
Proof. reflexivity. Qed.

(** C10: when the define lines of a header carry pairwise distinct names,
    reordering its lines does not change the string
    [generate_syscall_table] returns: one order returns a string exactly
    when the other returns it, and one order fails exactly when the other
    does.  Lines are compared stripped, so the result does not depend on
    indentation or line terminators either. *)
Theorem C10_line_order_irrelevant (text1 text2 : string) :
  Str.strip <$> file_lines text1 ≡ₚ Str.strip <$> file_lines text2 ->
  NoDup (omap line_name (file_lines text1)) ->
  (forall table,
     syscall_table_of_text text1 = Return table
     <-> syscall_table_of_text text2 = Return table)
  /\ ((exists e, syscall_table_of_text text1 = Raise e)
      <-> (exists e, syscall_table_of_text text2 = Raise e))
  /\ forall path1 path2 w1 w2 table,
       faults w1 !! path1 = None -> files w1 !! path1 = Some text1 ->
       faults w2 !! path2 = None -> files w2 !! path2 = Some text2 ->
       generate_syscall_table path1 w1 = (Return table, w1)
       <-> generate_syscall_table path2 w2 = (Return table, w2).
Proof.
  intros Hperm Hnd. unfold syscall_table_of_text.
  destruct (stripped_perm _ _ Hperm) as [Hpass Hentries].
  assert (Hiff : forall table,
            table_of_lines (file_lines text1) = Return table
            <-> table_of_lines (file_lines text2) = Return table).
  { intros table. rewrite !table_of_lines_Return.
    assert (Forall line_passes (file_lines text1) ->
            serialize (omap line_entry (file_lines text1))
            = serialize (omap line_entry (file_lines text2))) as Hser.
    { intros Hall. unfold serialize. simpl. do 2 f_equal.
      apply sort_syscalls_order_irrelevant; [done|].
      by rewrite entry_names. }
    split; intros [Hall ->].
    - split; [by apply Hpass|by apply Hser].
    - apply Hpass in Hall. split; [done|]. symmetry. by apply Hser. }
  split; [done|]. split.
  - by rewrite !table_of_lines_Raise, Hpass.
  - intros path1 path2 w1 w2 table Hf1 Hs1 Hf2 Hs2.
    rewrite (generate_syscall_table_read _ _ _ Hf1 Hs1).
    rewrite (generate_syscall_table_read _ _ _ Hf2 Hs2).
    unfold syscall_table_of_text.
    split; intros [= Heq]; f_equal;
      rewrite reported_Return in Heq |- *; by apply Hiff.
Qed.

Lemma C10_line_order_irrelevant_witness :
  syscall_table_of_text
    ("#define __NR_read 0" +:+ nl +:+ "#define __NR_open 2")
  = Return ("(" +:+ dquote +:+ "open" +:+ dquote +:+ ", 2), ("
            +:+ dquote +:+ "read" +:+ dquote +:+ ", 0),")
  <-> syscall_table_of_text
        ("  #define __NR_open 2" +:+ String CR nl +:+ "#define __NR_read 0"
         +:+ nl)
      = Return ("(" +:+ dquote +:+ "open" +:+ dquote +:+ ", 2), ("
                +:+ dquote +:+ "read" +:+ dquote +:+ ", 0),").
Proof.
  apply C10_line_order_irrelevant.
  - vm_compute. apply perm_swap.
  - apply (bool_decide_unpack _). vm_compute. exact I.
Defined.

Lemma C3_sorted_stable_witness :
  [("open", 2); ("read", 0); ("read", 5)]
  = sort_syscalls [("read", 0); ("open", 2); ("read", 5)].
Proof.
  apply (C3_sorted_stable [("read", 0); ("open", 2); ("read", 5)]).
  - repeat constructor.
  - intros name. unfold named. rewrite !filter_cons, !filter_nil. simpl.
    destruct (decide ("open" = name)) as [E1|];
      destruct (decide ("read" = name)) as [E2|];
      try reflexivity.
    rewrite <-E1 in E2. discriminate E2.
Defined.

(** ** Rendering *)

Lemma join_cons sep x l :
  Str.join sep (x :: l)
  = x +:+ foldr (fun y acc => sep +:+ y +:+ acc) "" l.
Proof.
  revert x. induction l as [|y l IH]; intros x.
  - by rewrite app_nil_r.
  - change (Str.join sep (x :: y :: l)) with (x +:+ sep +:+ Str.join sep (y :: l)).
    by rewrite IH.
Qed.

Lemma int_from_app acc s t :
  Str.int_from acc (s +:+ t) = Str.int_from (Str.int_from acc s) t.
Proof.
  revert acc. induction s as [|c s IH]; intros acc; [done|].
  rewrite app_cons. simpl. by rewrite IH.
Qed.

Lemma pretty_N_go_app x s : pretty_N_go x s = pretty_N_go x "" +:+ s.
Proof.
  revert s. induction (N.lt_wf_0 x) as [x _ IH]; intros s.
  destruct (decide (x = 0)%N) as [->|Hx]; [done|].
  rewrite !(pretty_N_go_step x) by lia.
  rewrite IH by (apply N.div_lt; lia).
  rewrite (IH (x `div` 10)%N) with (s := String _ "") by (apply N.div_lt; lia).
  by rewrite app_assoc.
Qed.

Lemma pretty_N_char_decimal d :
  (d < 10)%N ->
  Char.isdecimal (pretty_N_char d) = true
  /\ Char.digit_value (pretty_N_char d) = Z.of_N d.
Proof.
  intros Hd.
  assert (d = 0 \/ d = 1 \/ d = 2 \/ d = 3 \/ d = 4 \/ d = 5 \/ d = 6
          \/ d = 7 \/ d = 8 \/ d = 9)%N as Hcases by lia.
  repeat destruct Hcases as [->|Hcases]; try subst d; by vm_compute.
Qed.

(** The digits [pretty] prints for a natural number: all decimal, and they
    read back as that number. *)
Lemma pretty_N_go_digits x :
  Str.all Char.isdecimal (pretty_N_go x "") = true
  /\ Str.int_value (pretty_N_go x "") = Z.of_N x.
Proof.
  unfold Str.int_value. induction (N.lt_wf_0 x) as [x _ IH].
  destruct (decide (x = 0)%N) as [->|Hx]; [done|].
  rewrite (pretty_N_go_step x), pretty_N_go_app by lia.
  destruct (IH (x `div` 10)%N) as [IH1 IH2]; [apply N.div_lt; lia|].
  destruct (pretty_N_char_decimal (x `mod` 10)%N) as [Hc1 Hc2].
  { apply N.mod_lt. lia. }
  rewrite all_app, int_from_app, IH1, IH2. simpl. rewrite Hc1, Hc2.
  split; [done|]. rewrite (N.div_mod x 10) at 3 by lia. lia.
Qed.

Lemma pretty_Z_digits (num : Z) :
  0 <= num ->
  pretty num <> ""
  /\ Str.all Char.isdecimal (pretty num) = true
  /\ Str.int_value (pretty num) = num.
Proof.
  intros Hnum. destruct num as [|p|p]; [done| |lia].
  change (pretty (Z.pos p)) with (pretty_N_go (N.pos p) "").
  destruct (pretty_N_go_digits (N.pos p)) as [H1 H2].
  split; [|done]. intros Hempty. rewrite Hempty in H2. done.
Qed.

(** C4: each entry is rendered as an opening parenthesis, the name between
    double quotes, a comma and a space, the number in plain decimal digits,
    a closing parenthesis and a trailing comma; the literals of the sorted
    entries are joined by exactly one space; the empty table gives the
    empty string. *)
Theorem C4_rendering :
  serialize [] = ""
  /\ (forall syscalls,
        serialize syscalls
        = match sort_syscalls syscalls with
          | [] => ""
          | e :: es =>
              render_entry e
              +:+ foldr (fun e' acc => " " +:+ render_entry e' +:+ acc) "" es
          end)
  /\ (forall name num,
        0 <= num ->
        exists digits,
          render_entry (name, num)
          = "(" +:+ dquote +:+ name +:+ dquote +:+ ", " +:+ digits +:+ "),"
          /\ digits <> ""
          /\ Str.all Char.isdecimal digits = true
          /\ Str.int_value digits = num).
Proof.
  split; [done|]. split.
  - intros syscalls. unfold serialize. simpl.
    destruct (sort_syscalls syscalls) as [|e es]; [done|].
    rewrite fmap_cons, join_cons. f_equal.
    induction es as [|e' es IH]; [done|].
    rewrite fmap_cons. simpl. by rewrite IH.
  - intros name num Hnum. exists (pretty num).
    split; [done|]. by apply pretty_Z_digits.
Qed.

Lemma C4_rendering_witness :
  exists digits,
    render_entry ("openat", 257)
    = "(" +:+ dquote +:+ "openat" +:+ dquote +:+ ", " +:+ digits +:+ "),"
    /\ digits <> ""
    /\ Str.all Char.isdecimal digits = true
    /\ Str.int_value digits = 257.
Proof. apply C4_rendering. lia. Defined.

(** ** Failures while reading *)

Lemma generate_syscall_table_missing path w :
  faults w !! path = None -> files w !! path = None ->
  generate_syscall_table path w
  = (Raise (Exn RuntimeError ("Header file not found: " +:+ path)), w).
Proof.
  intros Hf Hs.
  unfold generate_syscall_table, try_except, bind, read_text, lift.
  by rewrite Hf, Hs.
Qed.

Lemma isinstance_Exception e : isinstance e Exception = true.
Proof. unfold isinstance. by destruct (exn_cls e). Qed.

Lemma generate_syscall_table_fault path w e :
  faults w !! path = Some e ->
  generate_syscall_table path w
  = (Raise (Exn RuntimeError
       (if isinstance e FileNotFoundError
        then "Header file not found: " +:+ path
        else "File processing failed: " +:+ exn_str e)), w).
Proof.
  intros Hf.
  unfold generate_syscall_table, try_except, bind, read_text, lift.
  rewrite Hf. cbn [dispatch]. rewrite isinstance_Exception.
  by destruct (isinstance e FileNotFoundError).
Qed.

(** The three ways a call can go. *)
Lemma generate_syscall_table_cases path w :
  (exists text table,
     files w !! path = Some text
     /\ syscall_table_of_text text = Return table
     /\ generate_syscall_table path w = (Return table, w))
  \/ generate_syscall_table path w
     = (Raise (Exn RuntimeError ("Header file not found: " +:+ path)), w)
  \/ (exists cause,
        generate_syscall_table path w
        = (Raise (Exn RuntimeError
                    ("File processing failed: " +:+ cause)), w)).
Proof.
  destruct (faults w !! path) as [e|] eqn:Hf.
  - right. rewrite (generate_syscall_table_fault _ _ _ Hf).
    destruct (isinstance e FileNotFoundError); eauto.
  - destruct (files w !! path) as [text|] eqn:Hs.
    + rewrite (generate_syscall_table_read _ _ _ Hf Hs).
      destruct (syscall_table_of_text text) as [table|e] eqn:Ht.
      * left. by exists text, table.
      * right. right. by exists (exn_str e).
    + right. left. by apply generate_syscall_table_missing.
Qed.

Lemma generate_syscall_table_pure path w :
  snd (generate_syscall_table path w) = w.
Proof.
  destruct (generate_syscall_table_cases path w)
    as [(text & table & _ & _ & ->)|[->|(cause & ->)]]; done.
Qed.




(** ** Determinism *)

Lemma sort_syscalls_idem l : sort_syscalls (sort_syscalls l) = sort_syscalls l.
Proof.
  symmetry. apply sort_syscalls_unique; [apply sort_syscalls_sorted|done].
Qed.

(** C8: [generate_syscall_table] only reads: running it again in the world
    it leaves gives the same outcome; serializing a table that is already
    sorted gives the same string as serializing it unsorted; and two
    readable files with the same text give the same string, or the same
    error, wherever they are. *)
Theorem C8_deterministic (path : string) (w : world) :
  generate_syscall_table path (snd (generate_syscall_table path w))
  = generate_syscall_table path w
  /\ (forall syscalls, serialize (sort_syscalls syscalls) = serialize syscalls)
  /\ (forall path' w' text,
        faults w !! path = None -> files w !! path = Some text ->
        faults w' !! path' = None -> files w' !! path' = Some text ->
        fst (generate_syscall_table path' w')
        = fst (generate_syscall_table path w)).
Proof.
  split; [by rewrite generate_syscall_table_pure|]. split.
  - intros syscalls. unfold serialize. by rewrite sort_syscalls_idem.
  - intros path' w' text Hf Hs Hf' Hs'.
    rewrite (generate_syscall_table_read _ _ _ Hf Hs).
    by rewrite (generate_syscall_table_read _ _ _ Hf' Hs').
Qed.

Lemma C8_deterministic_witness :
  fst (generate_syscall_table "b/unistd_64.h"
         (World {[ "b/unistd_64.h" := "#define __NR_read 0" ]} ∅ ∅ ∅ None
                ["earlier output"]))
  = fst (generate_syscall_table "a/unistd_64.h"
           (World {[ "a/unistd_64.h" := "#define __NR_read 0" ]} ∅ ∅ ∅ None
                  [])).
Proof.
  apply (proj2 (proj2 (C8_deterministic "a/unistd_64.h" _)))
    with (text := "#define __NR_read 0"); reflexivity.
Defined.
(** ** Emission *)

Lemma under_file_files fuel w w' path :
  files w' = files w -> under_file fuel w' path = under_file fuel w path.
Proof.
  intros Hfiles. revert path.
  induction fuel as [|n IH]; intros path; [done|].
  cbn [under_file]. unfold is_file. by rewrite Hfiles, IH.
Qed.

Lemma parent_error_stdout line w path :
  parent_error (add_stdout line w) path = parent_error w path.
Proof.
  unfold parent_error.
  by rewrite (under_file_files _ w (add_stdout line w)).
Qed.

(** Printing does not change whether a file can be opened. *)
Lemma open_for_writing_stdout line path w :
  open_for_writing path (add_stdout line w)
  = match fst (open_for_writing path w) with
    | Return _ =>
        (Return tt,
         set_files (<[path := ""]> (files w)) (add_stdout line w))
    | Raise e => (Raise e, add_stdout line w)
    end.
Proof.
  unfold open_for_writing. rewrite parent_error_stdout.
  change (faults (add_stdout line w)) with (faults w).
  change (is_dir (add_stdout line w) path) with (is_dir w path).
  destruct (faults w !! path); [done|].
  destruct (parent_error w path); [done|].
  by destruct (is_dir w path).
Qed.

Lemma open_for_writing_raises path w e :
  open_raises w path e -> open_for_writing path w = (Raise e, w).
Proof.
  unfold open_raises, open_for_writing.
  destruct (faults w !! path); [by intros [= ->]|].
  destruct (parent_error w path); [by intros [= ->]|].
  destruct (is_dir w path); [by intros [= ->]|done].
Qed.

Lemma generate_rust_code_open_fault syscalls output_path w e :
  open_raises w output_path e ->
  generate_rust_code syscalls output_path w
  = dispatch emission_handlers e
      (add_stdout ("Generating to: " +:+ output_path) w).
Proof.
  intros Hopen.
  unfold generate_rust_code, write_text, bind, print, try_except.
  cbn beta iota. rewrite open_for_writing_stdout. unfold open_raises in Hopen.
  by rewrite Hopen.
Qed.

Lemma generate_rust_code_write_fault syscalls output_path w e kept :
  opens w output_path -> write_faults w !! output_path = Some (e, kept) ->
  generate_rust_code syscalls output_path w
  = dispatch emission_handlers e
      (set_files (<[output_path := kept]> (files w))
         (add_stdout ("Generating to: " +:+ output_path) w)).
Proof.
  intros Hopen Hw.
  unfold generate_rust_code, write_text, bind, print, try_except.
  cbn beta iota. rewrite open_for_writing_stdout. unfold opens in Hopen. rewrite Hopen.
  unfold write_and_close. cbn [write_faults set_files add_stdout files].
  rewrite Hw. by rewrite insert_insert_eq.
Qed.

Lemma generate_rust_code_formatted syscalls output_path w fmt :
  opens w output_path -> write_faults w !! output_path = None ->
  rustfmt w = Some fmt ->
  generate_rust_code syscalls output_path w
  = let '(status, kept) := fmt (rust_code syscalls) in
    let w1 := add_stdout ("Generating to: " +:+ output_path) w in
    let w2 := set_files (<[output_path := kept]> (files w)) w1 in
    if status =? 0
    then (Return tt,
          add_stdout ("Generation succeeded: " +:+ output_path) w2)
    else (Raise (Exn RuntimeError "rustfmt formatting failed"), w2).
Proof.
  intros Hopen Hw Hfmt.
  unfold generate_rust_code, write_text, bind, print, try_except.
  cbn beta iota. rewrite open_for_writing_stdout. unfold opens in Hopen. rewrite Hopen.
  unfold write_and_close, run_rustfmt, set_files, add_stdout.
  cbn [write_faults files rustfmt]. rewrite Hw.
  cbn [write_faults files rustfmt]. rewrite Hfmt, lookup_insert_eq.
  cbn [default from_option id].
  destruct (fmt (rust_code syscalls)) as [status kept].
  destruct (status =? 0); cbn; by rewrite !insert_insert_eq.
Qed.

Lemma dispatch_io_error e w :
  isinstance e IOError = true ->
  dispatch emission_handlers e w
  = (Raise (Exn RuntimeError ("File write error: " +:+ exn_str e)), w).
Proof.
  intros He. unfold emission_handlers. cbn [dispatch]. rewrite He.
  assert (isinstance e CalledProcessError = false) as ->; [|done].
  unfold isinstance in *. by destruct (exn_cls e).
Qed.

Lemma dispatch_unhandled e w :
  isinstance e CalledProcessError = false -> isinstance e IOError = false ->
  dispatch emission_handlers e w = (Raise e, w).
Proof.
  intros Hc He. unfold emission_handlers. cbn [dispatch].
  by rewrite Hc, He.
Qed.

Lemma format_failed_ne_write_error cause :
  "rustfmt formatting failed" <> "File write error: " +:+ cause.
Proof. discriminate. Qed.

(** C6, as amended: when the formatter exits with a non-zero status, the
    error raised is [rustfmt formatting failed]; the output file is on disk
    with the text the formatter left there, which is the generated code
    when the formatter did not touch it; no other file changed and no
    success message was printed.  When creating or writing the file raises
    an [OSError], the error raised is [File write error] with its text, a
    different error: no file changed when opening failed, and the output
    file holds what had reached it when writing failed.  An exception of
    another class raised while the file is created or written is not
    reported as a write error: it leaves the function as it is. *)
Theorem C6_emission_failures (syscalls output_path : string) (w : world) :
  (forall fmt,
     opens w output_path -> write_faults w !! output_path = None ->
     rustfmt w = Some fmt ->
     fst (fmt (rust_code syscalls)) <> 0 ->
     exists w',
       generate_rust_code syscalls output_path w
       = (Raise (Exn RuntimeError "rustfmt formatting failed"), w')
       /\ files w'
          = <[output_path := snd (fmt (rust_code syscalls))]> (files w)
       /\ (snd (fmt (rust_code syscalls)) = rust_code syscalls ->
           files w' !! output_path = Some (rust_code syscalls))
       /\ stdout w' = stdout w ++ ["Generating to: " +:+ output_path])
  /\ (forall e,
        open_raises w output_path e -> isinstance e IOError = true ->
        exists w',
          generate_rust_code syscalls output_path w
          = (Raise (Exn RuntimeError ("File write error: " +:+ exn_str e)),
             w')
          /\ files w' = files w)
  /\ (forall e kept,
        opens w output_path ->
        write_faults w !! output_path = Some (e, kept) ->
        isinstance e IOError = true ->
        exists w',
          generate_rust_code syscalls output_path w
          = (Raise (Exn RuntimeError ("File write error: " +:+ exn_str e)),
             w')
          /\ files w' = <[output_path := kept]> (files w))
  /\ (forall cause,
        "rustfmt formatting failed" <> "File write error: " +:+ cause)
  /\ (forall e,
        isinstance e CalledProcessError = false ->
        isinstance e IOError = false ->
        (open_raises w output_path e ->
         fst (generate_rust_code syscalls output_path w) = Raise e)
        /\ (forall kept,
              opens w output_path ->
              write_faults w !! output_path = Some (e, kept) ->
              fst (generate_rust_code syscalls output_path w) = Raise e)).
Proof.
  split; [|split; [|split; [|split; [apply format_failed_ne_write_error|]]]].
  - intros fmt Hopen Hw Hfmt Hstatus.
    rewrite (generate_rust_code_formatted _ _ _ _ Hopen Hw Hfmt).
    destruct (fmt (rust_code syscalls)) as [status kept]. simpl in *.
    destruct (Z.eqb_spec status 0) as [|_]; [done|].
    eexists; split; [done|]. simpl. split; [done|]. split; [|done].
    intros ->. apply lookup_insert_eq.
  - intros e Hopen He.
    rewrite (generate_rust_code_open_fault _ _ _ _ Hopen).
    rewrite (dispatch_io_error _ _ He). by eexists.
  - intros e kept Hopen Hw He.
    rewrite (generate_rust_code_write_fault _ _ _ _ _ Hopen Hw).
    rewrite (dispatch_io_error _ _ He). by eexists.
  - intros e Hc He. split.
    + intros Hopen. rewrite (generate_rust_code_open_fault _ _ _ _ Hopen).
      by rewrite (dispatch_unhandled _ _ Hc He).
    + intros kept Hopen Hw.
      rewrite (generate_rust_code_write_fault _ _ _ _ _ Hopen Hw).
      by rewrite (dispatch_unhandled _ _ Hc He).
Qed.

Lemma C6_emission_failures_witness :
  exists w',
    generate_rust_code "" "out/riscv64.rs"
      (World ∅ {[ "out" ]} ∅ ∅ (Some (fun text => (1, text))) [])
    = (Raise (Exn RuntimeError "rustfmt formatting failed"), w')
    /\ files w' = <[ "out/riscv64.rs" := rust_code "" ]> ∅
    /\ (rust_code "" = rust_code "" ->
        files w' !! "out/riscv64.rs" = Some (rust_code ""))
    /\ stdout w' = [] ++ ["Generating to: " +:+ "out/riscv64.rs"].
Proof.
  apply (proj1 (C6_emission_failures "" "out/riscv64.rs"
                  (World ∅ {[ "out" ]} ∅ ∅ (Some (fun text => (1, text))) []))
           (fun text => (1, text))); [by vm_compute|reflexivity|reflexivity|].
  simpl. lia.
Defined.

(** The claim as the specification has it fails where writing the file
    raises an exception that is not an [OSError]: with an output encoding
    that lacks a character of the table, [f.write] raises
    [UnicodeEncodeError], the file is left empty, and the function raises
    that exception, not a write error. *)
Lemma C6_counterexample :
  fst (write_text "out.rs" (rust_code e_acute) ascii_only_world)
  = Raise ascii_encode_error
  /\ fst (generate_rust_code e_acute "out.rs" ascii_only_world)
     = Raise ascii_encode_error
  /\ files (snd (generate_rust_code e_acute "out.rs" ascii_only_world))
       !! "out.rs" = Some ""
  /\ ~ exists cause,
         fst (generate_rust_code e_acute "out.rs" ascii_only_world)
         = Raise (Exn RuntimeError ("File write error: " +:+ cause)).
Proof.
  assert (fst (generate_rust_code e_acute "out.rs" ascii_only_world)
          = Raise ascii_encode_error) as Hrun by by vm_compute.
  rewrite Hrun. repeat split; try by vm_compute.
  intros [cause Heq]. discriminate Heq.
Qed.
(** ** The driver: which file is read and which is written *)

Lemma Path_name_div p name : Path_name (Path_div p name) = name.
Proof. unfold Path_name, Path_div. simpl. apply last_last. Qed.

Lemma generate_rust_code_ok syscalls output_path w fmt :
  opens w output_path -> write_faults w !! output_path = None ->
  rustfmt w = Some fmt ->
  fst (fmt (rust_code syscalls)) = 0 ->
  exists w',
    generate_rust_code syscalls output_path w = (Return tt, w')
    /\ files w'
       = <[output_path := snd (fmt (rust_code syscalls))]> (files w).
Proof.
  intros Hopen Hw Hfmt Hstatus.
  rewrite (generate_rust_code_formatted _ _ _ _ Hopen Hw Hfmt).
  destruct (fmt (rust_code syscalls)) as [status kept]. simpl in *.
  subst status. by eexists.
Qed.

Lemma only_dirs_grow_refl w : only_dirs_grow w w.
Proof. by repeat split. Qed.

Lemma only_dirs_grow_trans w1 w2 w3 :
  only_dirs_grow w1 w2 -> only_dirs_grow w2 w3 -> only_dirs_grow w1 w3.
Proof.
  intros (? & ? & ? & ? & ? & ?) (? & ? & ? & ? & ? & ?).
  repeat split; try congruence. set_solver.
Qed.

Lemma os_mkdir_frame d w : only_dirs_grow w (snd (os_mkdir d w)).
Proof.
  unfold os_mkdir.
  destruct (faults w !! d); [apply only_dirs_grow_refl|].
  destruct (parent_error w d); [apply only_dirs_grow_refl|].
  destruct (is_dir w d || is_file w d); [apply only_dirs_grow_refl|].
  repeat split; try done. simpl. set_solver.
Qed.

Lemma unless_is_dir_frame self e w : snd (unless_is_dir self e w) = w.
Proof. unfold unless_is_dir. by destruct (is_dir w self). Qed.

Lemma mkdir_retry_frame self w :
  only_dirs_grow w
    (snd (try_except (os_mkdir self)
            [ (FileNotFoundError, fun e' => raise e');
              (OSError, unless_is_dir self) ] w)).
Proof.
  unfold try_except. pose proof (os_mkdir_frame self w) as Hw.
  destruct (os_mkdir self w) as [[[]|e] w']; [done|].
  cbn [dispatch]. simpl in Hw.
  destruct (isinstance e FileNotFoundError); [done|].
  destruct (isinstance e OSError); [|done].
  by rewrite unless_is_dir_frame.
Qed.

Lemma mkdir_parents_frame root rev_parts w :
  only_dirs_grow w (snd (mkdir_parents root rev_parts w)).
Proof.
  revert w. induction rev_parts as [|part above IH]; intros w;
    cbn [mkdir_parents].
  - pose proof (os_mkdir_frame (fspath (MkPath root (rev []))) w) as Hself.
    destruct (os_mkdir _ w) as [[[]|e] w']; [done|]. simpl in Hself.
    destruct (isinstance e FileNotFoundError); [done|].
    destruct (isinstance e OSError); [|done].
    by rewrite unless_is_dir_frame.
  - pose proof (os_mkdir_frame (fspath (MkPath root (rev (part :: above)))) w)
      as Hself.
    destruct (os_mkdir _ w) as [[[]|e] w']; [done|]. simpl in Hself.
    destruct (isinstance e FileNotFoundError).
    + unfold bind. pose proof (IH w') as Habove.
      destruct (mkdir_parents root above w') as [[[]|e'] w''];
        simpl in Habove.
      * eapply only_dirs_grow_trans; [exact Hself|].
        eapply only_dirs_grow_trans; [exact Habove|].
        apply mkdir_retry_frame.
      * by eapply only_dirs_grow_trans.
    + destruct (isinstance e OSError); [|done].
      by rewrite unless_is_dir_frame.
Qed.

Lemma Path_mkdir_frame p w : only_dirs_grow w (snd (Path_mkdir p w)).
Proof. apply mkdir_parents_frame. Qed.

(** C9: the name of the emitted file comes from [MAP_RUST_ARCH], the header
    is looked up under the kernel's name of the architecture: [riscv] gives
    [riscv64], [arm64] gives [aarch64], [x86_64] gives [x86_64].  When the
    headers are prepared, the table of the header is made, the output
    directory is there or can be made, the file can be written and the
    formatter succeeds, the command writes exactly the file named after
    the mapped architecture; for an architecture outside the mapping it
    raises [KeyError] once the directory is made, and writes nothing. *)
Theorem C9_output_file_name :
  (MAP_RUST_ARCH !! "riscv" = Some "riscv64"
   /\ MAP_RUST_ARCH !! "arm64" = Some "aarch64"
   /\ MAP_RUST_ARCH !! "x86_64" = Some "x86_64")
  /\ (forall prepare_command args w w1 w2 src_dir text syscalls rust_arch fmt,
        prepare_command args w = (Return src_dir, w1) ->
        MAP_RUST_ARCH !! arch args = Some rust_arch ->
        let header := header_path_of src_dir (arch args) in
        let out := Path_div (output_path args) (rust_arch +:+ ".rs") in
        faults w1 !! header = None -> files w1 !! header = Some text ->
        syscall_table_of_text text = Return syscalls ->
        Path_mkdir (output_path args) w1 = (Return tt, w2) ->
        opens w2 (fspath out) ->
        write_faults w1 !! fspath out = None ->
        rustfmt w1 = Some fmt ->
        fst (fmt (rust_code syscalls)) = 0 ->
        exists w',
          generate_syscall_command prepare_command args w = (Return tt, w')
          /\ files w'
             = <[fspath out := snd (fmt (rust_code syscalls))]> (files w1)
          /\ Path_name out = rust_arch +:+ ".rs")
  /\ (forall prepare_command args w w1 w2 src_dir text syscalls,
        prepare_command args w = (Return src_dir, w1) ->
        MAP_RUST_ARCH !! arch args = None ->
        let header := header_path_of src_dir (arch args) in
        faults w1 !! header = None -> files w1 !! header = Some text ->
        syscall_table_of_text text = Return syscalls ->
        Path_mkdir (output_path args) w1 = (Return tt, w2) ->
        generate_syscall_command prepare_command args w
        = (Raise (Exn KeyError (Str.repr (arch args))), w2)
        /\ files w2 = files w1).
Proof.
  split; [by vm_compute|]. split.
  - intros prepare_command args w w1 w2 src_dir text syscalls rust_arch fmt
      Hprep Hmap header out Hfh Hsh Htable Hmkdir Hopen Hw Hfmt Hstatus.
    pose proof (Path_mkdir_frame (output_path args) w1) as Hframe.
    rewrite Hmkdir in Hframe.
    destruct Hframe as (Hfiles & _ & Hwf & Hrf & _). simpl in *.
    rewrite <-Hwf in Hw. rewrite <-Hrf in Hfmt.
    destruct (generate_rust_code_ok syscalls (fspath out) w2 fmt
                Hopen Hw Hfmt Hstatus) as (w' & Hgen & Hfiles').
    exists w'. split; [|split; [by rewrite Hfiles', Hfiles
                               |apply Path_name_div]].
    unfold generate_syscall_command, bind. rewrite Hprep.
    fold header. rewrite (generate_syscall_table_ok _ _ _ _ Hfh Hsh Htable).
    rewrite Hmkdir. unfold getitem. rewrite Hmap. exact Hgen.
  - intros prepare_command args w w1 w2 src_dir text syscalls Hprep Hmap
      header Hfh Hsh Htable Hmkdir.
    pose proof (Path_mkdir_frame (output_path args) w1) as Hframe.
    rewrite Hmkdir in Hframe. destruct Hframe as (Hfiles & _).
    split; [|exact Hfiles].
    unfold generate_syscall_command, bind. rewrite Hprep.
    fold header. rewrite (generate_syscall_table_ok _ _ _ _ Hfh Hsh Htable).
    rewrite Hmkdir. unfold getitem. by rewrite Hmap.
Qed.

Lemma C9_output_file_name_witness :
  exists w',
    generate_syscall_command
      (fun _ => ret "/tmp/linux-6.12.8/linux-6.12.8")
      (MkArgs "riscv" "6.12.8" None (MkPath "" ["out"]))
      (World {[ "/tmp/linux-6.12.8/riscv_headers/include/asm/unistd_64.h"
                := "#define __NR_read 63" ]}
             ∅ ∅ ∅ (Some (fun text => (0, text))) [])
    = (Return tt, w')
    /\ files w'
       = <[ "out/riscv64.rs" := rust_code ("(" +:+ dquote +:+ "read"
                                            +:+ dquote +:+ ", 63),") ]>
           {[ "/tmp/linux-6.12.8/riscv_headers/include/asm/unistd_64.h"
              := "#define __NR_read 63" ]}
    /\ Path_name (Path_div (MkPath "" ["out"]) "riscv64.rs") = "riscv64.rs".
Proof.
  destruct (proj1 (proj2 C9_output_file_name)
           (fun _ => ret "/tmp/linux-6.12.8/linux-6.12.8")
           (MkArgs "riscv" "6.12.8" None (MkPath "" ["out"]))
           (World {[ "/tmp/linux-6.12.8/riscv_headers/include/asm/unistd_64.h"
                     := "#define __NR_read 63" ]}
                  ∅ ∅ ∅ (Some (fun text => (0, text))) [])
           (World {[ "/tmp/linux-6.12.8/riscv_headers/include/asm/unistd_64.h"
                     := "#define __NR_read 63" ]}
                  ∅ ∅ ∅ (Some (fun text => (0, text))) [])
           (World {[ "/tmp/linux-6.12.8/riscv_headers/include/asm/unistd_64.h"
                     := "#define __NR_read 63" ]}
                  {[ "out" ]} ∅ ∅ (Some (fun text => (0, text))) [])
           "/tmp/linux-6.12.8/linux-6.12.8" "#define __NR_read 63"
           ("(" +:+ dquote +:+ "read" +:+ dquote +:+ ", 63),")
           "riscv64" (fun text => (0, text)))
    as (w' & Hrun & Hfiles & Hname); try reflexivity; try by vm_compute.
  exists w'. split; [exact Hrun|]. split; [|exact Hname].
  rewrite Hfiles. reflexivity.
Defined.

(** ** Two observations on the edges of the emission path *)

Lemma generate_rust_code_unformatted syscalls output_path w :
  opens w output_path -> write_faults w !! output_path = None ->
  rustfmt w = None ->
  generate_rust_code syscalls output_path w
  = (Raise (Exn RuntimeError
       ("File write error: " +:+ exn_str (no_such_file "rustfmt"))),
     set_files (<[output_path := rust_code syscalls]> (files w))
       (add_stdout ("Generating to: " +:+ output_path) w)).
Proof.
  intros Hopen Hw Hfmt.
  unfold generate_rust_code, write_text, bind, print, try_except.
  cbn beta iota. rewrite open_for_writing_stdout. unfold opens in Hopen.
  rewrite Hopen.
  unfold write_and_close, run_rustfmt, set_files, add_stdout.
  cbn [write_faults files rustfmt]. rewrite Hw.
  cbn [write_faults files rustfmt]. rewrite Hfmt.
  cbn. by rewrite !insert_insert_eq.
Qed.

(** X11: when no [rustfmt] is installed, starting it raises [FileNotFoundError],
    an [OSError]: the handler for I/O errors reports it as a write error
    although the file has been written. *)
Remark rustfmt_missing_is_reported_as_write_error syscalls output_path w :
  opens w output_path -> write_faults w !! output_path = None ->
  rustfmt w = None ->
  exists w',
    generate_rust_code syscalls output_path w
    = (Raise (Exn RuntimeError
         ("File write error: " +:+ exn_str (no_such_file "rustfmt"))), w')
    /\ files w' !! output_path = Some (rust_code syscalls).
Proof.
  intros Hopen Hw Hfmt.
  rewrite (generate_rust_code_unformatted _ _ _ Hopen Hw Hfmt).
  eexists; split; [done|]. apply lookup_insert_eq.
Qed.

(** The keys of the mapping are the kernel's names: the Rust names
    [aarch64] and [riscv64] are not among them. *)
Remark MAP_RUST_ARCH_keys :
  dom MAP_RUST_ARCH = {[ "arm64"; "x86_64"; "riscv" ]}
  /\ MAP_RUST_ARCH !! "riscv64" = None
  /\ MAP_RUST_ARCH !! "aarch64" = None.
Proof.
  split; [|by vm_compute].
  unfold MAP_RUST_ARCH. rewrite !dom_insert_L, dom_empty_L. set_solver.
Qed.
(** * Further properties of the code *)

(** ** [line.strip()] and the loop body *)

Lemma all_impl (p q : ascii -> bool) s :
  (forall c, p c = true -> q c = true) ->
  Str.all p s = true -> Str.all q s = true.
Proof.
  intros Hpq. induction s as [|c s IH]; simpl; [done|].
  rewrite !andb_true_iff. intros [Hc Hs]. auto.
Qed.

Lemma lstrip_space ws s :
  Str.all Char.isspace ws = true -> Str.lstrip (ws +:+ s) = Str.lstrip s.
Proof.
  induction ws as [|c ws IH]; [done|]. rewrite app_cons. simpl.
  rewrite andb_true_iff. intros [Hc Hws]. rewrite Hc. auto.
Qed.

Lemma rstrip_all_space ws :
  Str.all Char.isspace ws = true -> Str.rstrip ws = "".
Proof.
  induction ws as [|c ws IH]; [done|]. simpl.
  rewrite andb_true_iff. intros [Hc Hws]. by rewrite IH, Hc.
Qed.

Lemma rstrip_app_space s ws :
  Str.all Char.isspace ws = true -> Str.rstrip (s +:+ ws) = Str.rstrip s.
Proof.
  intros Hws. induction s as [|c s IH].
  - by rewrite app_nil_l, rstrip_all_space.
  - rewrite app_cons. simpl. by rewrite IH.
Qed.

Lemma strip_app_space s ws :
  Str.all Char.isspace ws = true -> Str.strip (s +:+ ws) = Str.strip s.
Proof.
  intros Hws. unfold Str.strip. induction s as [|c s IH].
  - rewrite app_nil_l. simpl.
    rewrite <-(app_nil_r ws), lstrip_space by done. done.
  - rewrite app_cons. cbn [Str.lstrip]. destruct (Char.isspace c); [done|].
    rewrite <-app_cons. by apply rstrip_app_space.
Qed.

Lemma strip_pad ws1 s ws2 :
  Str.all Char.isspace ws1 = true -> Str.all Char.isspace ws2 = true ->
  Str.strip (ws1 +:+ s +:+ ws2) = Str.strip s.
Proof.
  intros H1 H2. rewrite <-(strip_app_space s ws2 H2).
  unfold Str.strip. by rewrite lstrip_space.
Qed.

Lemma rstrip_no_space t :
  Str.all (fun c => negb (Char.isspace c)) t = true -> Str.rstrip t = t.
Proof.
  induction t as [|c t IH]; [done|]. simpl.
  rewrite andb_true_iff, negb_true_iff. intros [Hc Ht].
  rewrite IH, Hc by done. by destruct t.
Qed.

Lemma rstrip_app_keep s t :
  t <> "" -> Str.rstrip t = t -> Str.rstrip (s +:+ t) = s +:+ t.
Proof.
  intros Hne Ht. induction s as [|c s IH]; [done|].
  rewrite app_cons. simpl. rewrite IH.
  destruct (s +:+ t) eqn:Hst; [|done].
  destruct s; [|done]. by rewrite app_nil_l in Hst.
Qed.


Lemma parse_line_valid line e :
  parse_line line = Return (Some e) -> valid_entry e.
Proof.
  destruct e as [name num].
  intros (digits & Hshape & _ & ->)%parse_line_shape.
  destruct Hshape as (? & ? & _ & Hn1 & Hn2 & _ & _ & _ & Hd & _).
  repeat split; [done..|]. by apply int_from_nonneg.
Qed.

(** X1: every entry the loop collects, and so every entry that is sorted
    and rendered, has a non-empty name made of word characters only and a
    number that is not negative. *)
Theorem parsed_entries_valid (lines : list string) (syscalls : list entry) :
  parse_lines lines = Return syscalls ->
  Forall valid_entry syscalls
  /\ Forall valid_entry (sort_syscalls syscalls).
Proof.
  intros [_ ->]%parse_lines_Return.
  assert (Forall valid_entry (omap line_entry lines)) as Hv.
  { apply Forall_forall. intros e (line & _ & Hline)%list_elem_of_omap.
    apply (parse_line_valid line). unfold line_entry in Hline.
    destruct (parse_line line); [by subst|done]. }
  split; [done|]. by rewrite sort_syscalls_perm.
Qed.

Lemma parsed_entries_valid_witness :
  Forall valid_entry [("read", 0); ("open", 2)]
  /\ Forall valid_entry (sort_syscalls [("read", 0); ("open", 2)]).
Proof.
  apply (parsed_entries_valid
           ["#define __NR_read 0"; "// comment"; "#define __NR_open 2"]).
  reflexivity.
Defined.

(** X2: a define line written in the plain form, the prefix, the name, one
    space and the number in decimal, is read back as exactly that entry
    when the number has at most 4300 digits; with more digits the line
    raises the [ValueError] of [int]. *)
Theorem parse_line_of_define (name : string) (num : Z) :
  name <> "" -> Str.all Char.isword name = true -> 0 <= num ->
  parse_line (define_prefix +:+ name +:+ " " +:+ pretty num)
  = if (4300 <? String.length (pretty num))%nat
    then Raise (Exn ValueError
                  (Str.int_limit_message (String.length (pretty num))))
    else Return (Some (name, num)).
Proof.
  intros Hn1 Hn2 Hnum.
  destruct (pretty_Z_digits num Hnum) as (Hd1 & Hd2 & Hint).
  assert (define_shape
            (Str.strip (define_prefix +:+ name +:+ " " +:+ pretty num))
            name (pretty num)) as Hshape.
  { assert (Str.strip (define_prefix +:+ name +:+ " " +:+ pretty num)
            = define_prefix +:+ name +:+ " " +:+ pretty num) as ->.
    { unfold Str.strip.
      change (Str.lstrip (define_prefix +:+ name +:+ " " +:+ pretty num))
        with (define_prefix +:+ name +:+ " " +:+ pretty num).
      rewrite <-!app_assoc. apply rstrip_app_keep; [done|].
      apply rstrip_no_space. apply (all_impl Char.isdecimal); [|done].
      intros c Hc. pose proof (decimal_not_space c) as Hsp.
      rewrite Hc in Hsp. simpl in Hsp. by rewrite Hsp. }
    exists " ", "". by rewrite app_nil_r. }
  destruct (Nat.ltb_spec 4300 (String.length (pretty num))) as [Hlong|Hfits].
  - apply parse_line_raises. by exists name, (pretty num).
  - apply parse_line_shape. by exists (pretty num).
Qed.

Lemma parse_line_of_define_witness :
  parse_line (define_prefix +:+ "io_uring_setup" +:+ " " +:+ pretty 425)
  = Return (Some ("io_uring_setup", 425)).
Proof.
  rewrite (parse_line_of_define "io_uring_setup" 425);
    [reflexivity|discriminate|reflexivity|lia].
Defined.

(** X3: white space around a line, indentation before it and blanks or a
    line terminator after it, does not change what the loop body yields. *)
Theorem parse_line_padding (ws1 line ws2 : string) :
  Str.all Char.isspace ws1 = true -> Str.all Char.isspace ws2 = true ->
  parse_line (ws1 +:+ line +:+ ws2) = parse_line line.
Proof.
  intros H1 H2. unfold parse_line, scan_line. simpl.
  by rewrite strip_pad.
Qed.

Lemma parse_line_padding_witness :
  parse_line (String "009"%char " " +:+ "#define __NR_read 0"
              +:+ String CR nl)
  = parse_line "#define __NR_read 0".
Proof. apply parse_line_padding; reflexivity. Defined.

(** ** Line terminators *)

Lemma universal_newlines_app l rest :
  no_newline l ->
  universal_newlines (l +:+ rest) = l +:+ universal_newlines rest.
Proof.
  unfold no_newline, is_newline. induction l as [|c l IH]; [done|].
  rewrite app_cons. simpl.
  rewrite andb_true_iff, negb_true_iff, orb_false_iff.
  intros [[Hcr _] Hl]. rewrite Hcr. by rewrite IH, app_cons.
Qed.

Lemma universal_newlines_eol crlf rest :
  universal_newlines (eol crlf +:+ rest) = nl +:+ universal_newlines rest.
Proof. by destruct crlf. Qed.

Lemma universal_newlines_id l : no_newline l -> universal_newlines l = l.
Proof.
  intros Hl. rewrite <-(app_nil_r l) at 1.
  by rewrite universal_newlines_app, app_nil_r.
Qed.

Lemma split_lines_line l rest :
  no_newline l ->
  split_lines (l +:+ nl +:+ rest) = (l +:+ nl) :: split_lines rest.
Proof.
  unfold no_newline, is_newline. induction l as [|c l IH]; [done|].
  rewrite !app_cons. simpl.
  rewrite andb_true_iff, negb_true_iff, orb_false_iff.
  intros [[_ Hlf] Hl]. rewrite Hlf. by rewrite IH.
Qed.

Lemma split_lines_last l :
  no_newline l -> l <> "" -> split_lines l = [l].
Proof.
  unfold no_newline, is_newline. induction l as [|c l IH]; [done|]. simpl.
  rewrite andb_true_iff, negb_true_iff, orb_false_iff.
  intros [[_ Hlf] Hl] _. rewrite Hlf.
  destruct l as [|c' l']; [done|]. by rewrite IH.
Qed.

Lemma parse_lines_stripped_eq lines1 lines2 :
  Str.strip <$> lines1 = Str.strip <$> lines2 ->
  parse_lines lines1 = parse_lines lines2.
Proof.
  revert lines2. induction lines1 as [|l1 ls1 IH]; intros [|l2 ls2];
    try done.
  rewrite !fmap_cons. intros [= Hl Hls].
  by rewrite !parse_lines_cons, !parse_line_stripped, Hl, (IH ls2).
Qed.

(** X4: for a file given as lines, each ended by LF or by CR LF, with an
    optional last line that has no terminator, the loop sees exactly these
    lines, and the outcome is that of the lines alone: which terminator a
    line has, and whether the last line has one, makes no difference. *)
Theorem table_of_terminated_lines (lines : list (string * bool))
    (last : string) :
  Forall (fun l => no_newline (fst l)) lines -> no_newline last ->
  file_lines (text_of_lines lines +:+ last)
  = ((fun l => fst l +:+ nl) <$> lines)
    ++ (if decide (last = "") then [] else [last])
  /\ syscall_table_of_text (text_of_lines lines +:+ last)
     = table_of_lines ((fst <$> lines) ++ [last]).
Proof.
  intros Hlines Hlast.
  assert (file_lines (text_of_lines lines +:+ last)
          = ((fun l => fst l +:+ nl) <$> lines)
            ++ (if decide (last = "") then [] else [last])) as Hfl.
  { unfold file_lines. induction Hlines as [|[l crlf] ls Hl _ IH]; simpl.
    - rewrite app_nil_l, universal_newlines_id by done.
      destruct (decide (last = "")) as [->|Hne]; [done|].
      by apply split_lines_last.
    - simpl in Hl. rewrite !app_assoc.
      rewrite universal_newlines_app, universal_newlines_eol by done.
      rewrite split_lines_line by done. by rewrite IH. }
  split; [done|]. unfold syscall_table_of_text, table_of_lines.
  rewrite Hfl.
  assert (forall tail : list string,
            parse_lines (((fun l => fst l +:+ nl) <$> lines) ++ tail)
            = parse_lines ((fst <$> lines) ++ tail)) as Hstrip.
  { intros tail. apply parse_lines_stripped_eq. rewrite !fmap_app. f_equal.
    clear. induction lines as [|[l crlf] ls IH]; [done|].
    rewrite !fmap_cons, IH. simpl. by rewrite strip_app_space. }
  rewrite Hstrip.
  destruct (decide (last = "")) as [->|_]; [|done].
  by rewrite (parse_lines_skip (fst <$> lines) "" []).
Qed.

Lemma table_of_terminated_lines_witness :
  syscall_table_of_text
    (text_of_lines [("#define __NR_read 0", true);
                    ("#define __NR_open 2", false)]
     +:+ "#define __NR_write 1")
  = table_of_lines (["#define __NR_read 0"; "#define __NR_open 2"]
                    ++ ["#define __NR_write 1"]).
Proof.
  apply (table_of_terminated_lines
           [("#define __NR_read 0", true); ("#define __NR_open 2", false)]
           "#define __NR_write 1").
  - repeat constructor.
  - reflexivity.
Defined.

(** ** Tables without entries, tables already in order *)

Lemma parse_lines_nil lines :
  parse_lines lines = Return []
  <-> Forall (fun line => parse_line line = Return None) lines.
Proof.
  induction lines as [|line lines IH].
  - split; [constructor|done].
  - rewrite parse_lines_cons, Forall_cons.
    destruct (parse_line line) as [[e|]|e].
    + split; [by destruct (parse_lines lines)|by intros [? _]].
    + destruct (parse_lines lines) as [syscalls|e].
      * rewrite <-IH. split; [by intros [= ->]|by intros [_ [= ->]]].
      * rewrite <-IH. split; [done|by intros [_ ?]].
    + split; [done|by intros [? _]].
Qed.

Lemma serialize_nil syscalls : serialize syscalls = "" <-> syscalls = [].
Proof.
  split; [|by intros ->]. unfold serialize. simpl.
  destruct (sort_syscalls syscalls) as [|e es] eqn:Hsort.
  - intros _. apply Permutation_nil_r. by rewrite <-sort_syscalls_perm, Hsort.
  - rewrite fmap_cons, join_cons. unfold render_entry.
    rewrite !app_cons. discriminate.
Qed.

(** X5: the string returned is empty exactly when no line of the file
    yields an entry; an empty file, or one without define lines, is not an
    error. *)
Theorem empty_table_iff (text : string) :
  syscall_table_of_text text = Return ""
  <-> Forall (fun line => parse_line line = Return None) (file_lines text).
Proof.
  unfold syscall_table_of_text, table_of_lines. rewrite <-parse_lines_nil.
  destruct (parse_lines (file_lines text)) as [syscalls|e]; [|done].
  split.
  - intros [= Hs]. f_equal. by apply serialize_nil.
  - by intros [= ->].
Qed.

Lemma empty_table_iff_witness :
  syscall_table_of_text ("/* no syscalls */" +:+ nl +:+ "#define __NR_bad")
  = Return "".
Proof. apply empty_table_iff. repeat constructor. Defined.


(** X6: a table whose names are already in order is rendered in the order
    it has. *)
Theorem sort_syscalls_sorted_id (syscalls : list entry) :
  Sorted name_le syscalls -> sort_syscalls syscalls = syscalls.
Proof.
  intros Hs. symmetry. by apply sort_syscalls_unique.
Qed.

Lemma sort_syscalls_sorted_id_witness :
  sort_syscalls [("close", 3); ("open", 2); ("open", 257); ("read", 0)]
  = [("close", 3); ("open", 2); ("open", 257); ("read", 0)].
Proof. apply sort_syscalls_sorted_id. repeat constructor. Defined.

(** ** Nothing is lost in rendering *)

(** A string splits in one way only into a run of a class and a rest that
    does not go on with that class. *)
Lemma class_run_unique p a1 b1 a2 b2 :
  a1 +:+ b1 = a2 +:+ b2 ->
  Str.all p a1 = true -> Str.all p a2 = true ->
  Str.starts_in p b1 = false -> Str.starts_in p b2 = false ->
  a1 = a2 /\ b1 = b2.
Proof.
  revert a2. induction a1 as [|c a1 IH]; intros [|c2 a2]; try done.
  - rewrite app_nil_l, app_cons. intros -> _. simpl.
    rewrite andb_true_iff. intros [Hc _] Hb. by rewrite Hc in Hb.
  - rewrite app_nil_l, app_cons. intros <-. simpl.
    rewrite andb_true_iff. intros [Hc _] _ _ Hb. by rewrite Hc in Hb.
  - rewrite !app_cons. intros [= -> Heq]. simpl.
    rewrite !andb_true_iff. intros [_ H1] [_ H2] Hb1 Hb2.
    destruct (IH a2 Heq H1 H2 Hb1 Hb2) as [-> ->]. done.
Qed.

Lemma render_entry_app name num rest :
  render_entry (name, num) +:+ rest
  = String "(" (String "034" (name +:+ String "034" (String "," (String " "
      (pretty num +:+ String ")" (String "," rest)))))).
Proof. unfold render_entry, dquote. simpl. by rewrite !app_assoc. Qed.

(** The first literal of a string of literals determines its entry. *)
Lemma render_entry_peel e1 e2 rest1 rest2 :
  valid_entry e1 -> valid_entry e2 ->
  render_entry e1 +:+ rest1 = render_entry e2 +:+ rest2 ->
  e1 = e2 /\ rest1 = rest2.
Proof.
  destruct e1 as [n1 k1], e2 as [n2 k2].
  intros (_ & Hn1 & Hk1) (_ & Hn2 & Hk2). simpl in *.
  rewrite !render_entry_app. intros [= Heq].
  apply (class_run_unique Char.isword) in Heq as [-> [= Heq]]; [|done..].
  destruct (pretty_Z_digits k1 Hk1) as (_ & Hd1 & Hi1).
  destruct (pretty_Z_digits k2 Hk2) as (_ & Hd2 & Hi2).
  apply (class_run_unique Char.isdecimal) in Heq as [Hp [= ->]]; [|done..].
  split; [|done]. f_equal. by rewrite <-Hi1, <-Hi2, Hp.
Qed.

Lemma literals_inj es1 es2 :
  Forall valid_entry es1 -> Forall valid_entry es2 ->
  foldr (fun e acc => " " +:+ render_entry e +:+ acc) "" es1
  = foldr (fun e acc => " " +:+ render_entry e +:+ acc) "" es2 ->
  es1 = es2.
Proof.
  intros H1. revert es2.
  induction H1 as [|e1 es1 He1 _ IH]; intros es2 H2;
    destruct H2 as [|e2 es2 He2 H2]; cbn [foldr]; try done.
  intros Heq. apply String.app_inj in Heq.
  apply render_entry_peel in Heq as [-> Heq]; [|done..].
  f_equal. by apply IH.
Qed.

Lemma serialize_literals syscalls :
  serialize syscalls
  = match sort_syscalls syscalls with
    | [] => ""
    | e :: es =>
        render_entry e
        +:+ foldr (fun e' acc => " " +:+ render_entry e' +:+ acc) "" es
    end.
Proof.
  unfold serialize. simpl.
  destruct (sort_syscalls syscalls) as [|e es]; [done|].
  rewrite fmap_cons, join_cons. f_equal.
  induction es as [|e' es IH]; [done|].
  rewrite fmap_cons. simpl. by rewrite IH.
Qed.

(** X7: the string returned determines the sorted table: two tables of
    valid entries with the same string have the same entries in the same
    order once sorted.  No two different tables are rendered alike. *)
Theorem serialize_inj (syscalls1 syscalls2 : list entry) :
  Forall valid_entry syscalls1 -> Forall valid_entry syscalls2 ->
  serialize syscalls1 = serialize syscalls2 ->
  sort_syscalls syscalls1 = sort_syscalls syscalls2.
Proof.
  intros H1 H2. rewrite !serialize_literals.
  rewrite <-(sort_syscalls_perm syscalls1) in H1.
  rewrite <-(sort_syscalls_perm syscalls2) in H2.
  revert H1 H2.
  generalize (sort_syscalls syscalls1), (sort_syscalls syscalls2).
  intros s1 s2 H1 H2.
  destruct H1 as [|e1 es1 He1 H1], H2 as [|e2 es2 He2 H2]; try done.
  intros Heq. apply render_entry_peel in Heq as [-> Heq]; [|done..].
  f_equal. by apply literals_inj.
Qed.

Lemma serialize_inj_witness :
  sort_syscalls [("write", 1); ("read", 0)]
  = sort_syscalls [("read", 0); ("write", 1)].
Proof.
  apply serialize_inj; [| |reflexivity]; repeat constructor; discriminate.
Defined.

Lemma app_length s t :
  String.length (s +:+ t) = (String.length s + String.length t)%nat.
Proof.
  induction s as [|c s IH]; [done|]. rewrite app_cons. simpl. by rewrite IH.
Qed.

Lemma app_inj_r s1 s2 t : s1 +:+ t = s2 +:+ t -> s1 = s2.
Proof.
  revert s2. induction s1 as [|c1 s1 IH]; intros [|c2 s2] Heq; [done|..].
  - apply (f_equal String.length) in Heq.
    rewrite app_nil_l, app_length in Heq. simpl in Heq. lia.
  - apply (f_equal String.length) in Heq.
    rewrite app_nil_l, app_length in Heq. simpl in Heq. lia.
  - rewrite !app_cons in Heq. injection Heq as -> Heq. f_equal. by apply IH.
Qed.

(** X8: the template keeps the literals it is given apart: two generated
    files with the same text were generated from the same string. *)
Theorem rust_code_inj (syscalls1 syscalls2 : string) :
  rust_code syscalls1 = rust_code syscalls2 -> syscalls1 = syscalls2.
Proof.
  unfold rust_code. intros Heq.
  do 7 apply String.app_inj in Heq. by apply app_inj_r in Heq.
Qed.

Lemma rust_code_inj_witness : "(x, 1)," = "(x, 1),".
Proof. apply rust_code_inj. reflexivity. Defined.

(** ** Emission: success, and the errors that are not wrapped *)

(** X9: when the file can be opened and written and the formatter exits
    with status zero, [generate_rust_code] returns; the formatter was run
    on the code just written, whatever the file held before; the file
    holds what the formatter left; nothing else changed; and the two
    messages were printed, in this order. *)
Theorem generate_rust_code_success (syscalls output_path : string)
    (w : world) (fmt : string -> Z * string) :
  opens w output_path -> write_faults w !! output_path = None ->
  rustfmt w = Some fmt ->
  fst (fmt (rust_code syscalls)) = 0 ->
  generate_rust_code syscalls output_path w
  = (Return tt,
     {| files := <[output_path := snd (fmt (rust_code syscalls))]> (files w);
        dirs := dirs w;
        faults := faults w;
        write_faults := write_faults w;
        rustfmt := rustfmt w;
        stdout := stdout w ++ ["Generating to: " +:+ output_path;
                               "Generation succeeded: " +:+ output_path] |}).
Proof.
  intros Hopen Hw Hfmt Hstatus.
  rewrite (generate_rust_code_formatted _ _ _ _ Hopen Hw Hfmt).
  destruct (fmt (rust_code syscalls)) as [status kept]. simpl in *.
  subst status. unfold add_stdout, set_files. simpl.
  by rewrite <-List.app_assoc.
Qed.

Lemma generate_rust_code_success_witness :
  generate_rust_code "(x, 1)," "out/x86_64.rs"
    (World {[ "out/x86_64.rs" := "stale" ]} {[ "out" ]} ∅ ∅
           (Some (fun text => (0, "// formatted" +:+ nl +:+ text))) [])
  = (Return tt,
     {| files := <[ "out/x86_64.rs" :=
                    snd ((fun text => (0, "// formatted" +:+ nl +:+ text))
                           (rust_code "(x, 1),")) ]>
                   {[ "out/x86_64.rs" := "stale" ]};
        dirs := {[ "out" ]};
        faults := ∅;
        write_faults := ∅;
        rustfmt := Some (fun text => (0, "// formatted" +:+ nl +:+ text));
        stdout := [] ++ ["Generating to: " +:+ "out/x86_64.rs";
                         "Generation succeeded: " +:+ "out/x86_64.rs"] |}).
Proof.
  rewrite (generate_rust_code_success "(x, 1)," "out/x86_64.rs" _
             (fun text => (0, "// formatted" +:+ nl +:+ text)));
    first [reflexivity | by vm_compute].
Defined.

(** X10: an exception raised while the file is opened or written that is
    neither an I/O error nor a failed subprocess, such as an encoding
    error, is not turned into a runtime error: it leaves
    [generate_rust_code] as it is, after the first message only.  When it
    was raised by opening, no file changed; when it was raised by writing,
    the file had been created or emptied and holds what reached it. *)
Theorem write_exception_not_wrapped (syscalls output_path : string)
    (w : world) (e : exn) :
  isinstance e IOError = false -> isinstance e CalledProcessError = false ->
  (open_raises w output_path e ->
   generate_rust_code syscalls output_path w
   = (Raise e, add_stdout ("Generating to: " +:+ output_path) w))
  /\ (forall kept,
        opens w output_path ->
        write_faults w !! output_path = Some (e, kept) ->
        generate_rust_code syscalls output_path w
        = (Raise e,
           set_files (<[output_path := kept]> (files w))
             (add_stdout ("Generating to: " +:+ output_path) w))).
Proof.
  intros Hio Hcp. split.
  - intros Hopen. rewrite (generate_rust_code_open_fault _ _ _ _ Hopen).
    by apply dispatch_unhandled.
  - intros kept Hopen Hw.
    rewrite (generate_rust_code_write_fault _ _ _ _ _ Hopen Hw).
    by apply dispatch_unhandled.
Qed.

Lemma write_exception_not_wrapped_witness :
  generate_rust_code e_acute "out.rs" ascii_only_world
  = (Raise ascii_encode_error,
     set_files (<[ "out.rs" := "" ]> (files ascii_only_world))
       (add_stdout ("Generating to: " +:+ "out.rs") ascii_only_world)).
Proof.
  apply (write_exception_not_wrapped e_acute "out.rs" ascii_only_world
           ascii_encode_error); reflexivity.
Defined.

Lemma rustfmt_missing_witness :
  exists w',
    generate_rust_code "" "out/riscv64.rs" (World ∅ {[ "out" ]} ∅ ∅ None [])
    = (Raise (Exn RuntimeError
         ("File write error: " +:+ exn_str (no_such_file "rustfmt"))), w')
    /\ files w' !! "out/riscv64.rs" = Some (rust_code "").
Proof.
  apply rustfmt_missing_is_reported_as_write_error;
    first [reflexivity | by vm_compute].
Defined.

Lemma dispatch_emission_world e w :
  snd (dispatch emission_handlers e w) = w.
Proof.
  unfold emission_handlers. cbn [dispatch].
  destruct (isinstance e CalledProcessError); [done|].
  by destruct (isinstance e IOError).
Qed.

(** What [generate_rust_code] leaves alone, however it ends. *)
Lemma generate_rust_code_frame syscalls output_path w :
  dirs (snd (generate_rust_code syscalls output_path w)) = dirs w
  /\ forall q,
       q <> output_path ->
       files (snd (generate_rust_code syscalls output_path w)) !! q
       = files w !! q.
Proof.
  destruct (fst (open_for_writing output_path w)) as [[]|e] eqn:Hopen.
  - destruct (write_faults w !! output_path) as [[e kept]|] eqn:Hw.
    + rewrite (generate_rust_code_write_fault _ _ _ _ _ Hopen Hw).
      rewrite dispatch_emission_world. split; [done|].
      intros q Hq. simpl. by rewrite lookup_insert_ne.
    + destruct (rustfmt w) as [fmt|] eqn:Hfmt.
      * rewrite (generate_rust_code_formatted _ _ _ _ Hopen Hw Hfmt).
        destruct (fmt (rust_code syscalls)) as [status kept].
        destruct (status =? 0); simpl; (split; [done|]);
          intros q Hq; by rewrite lookup_insert_ne.
      * rewrite (generate_rust_code_unformatted _ _ _ Hopen Hw Hfmt).
        split; [done|]. intros q Hq. simpl. by rewrite lookup_insert_ne.
  - rewrite (generate_rust_code_open_fault _ _ _ _ Hopen).
    by rewrite dispatch_emission_world.
Qed.

(** ** The driver: failures before emission, and what it leaves alone *)

Lemma os_mkdir_dirs d w x :
  x ∈ dirs (snd (os_mkdir d w)) -> x ∈ dirs w \/ x = d.
Proof.
  unfold os_mkdir.
  destruct (faults w !! d); [auto|].
  destruct (parent_error w d); [auto|].
  destruct (is_dir w d || is_file w d); [auto|].
  simpl. rewrite elem_of_union, elem_of_singleton. tauto.
Qed.

Lemma mkdir_retry_dirs self w x :
  x ∈ dirs (snd (try_except (os_mkdir self)
                   [ (FileNotFoundError, fun e' => raise e');
                     (OSError, unless_is_dir self) ] w)) ->
  x ∈ dirs w \/ x = self.
Proof.
  unfold try_except. pose proof (os_mkdir_dirs self w x) as Hw.
  destruct (os_mkdir self w) as [[[]|e] w']; [done|].
  cbn [dispatch]. simpl in Hw.
  destruct (isinstance e FileNotFoundError); [done|].
  destruct (isinstance e OSError); [|done].
  by rewrite unless_is_dir_frame.
Qed.

(** The directories [mkdir] makes are the path itself and those above it. *)
Lemma mkdir_parents_dirs root rev_parts w x :
  x ∈ dirs (snd (mkdir_parents root rev_parts w)) ->
  x ∈ dirs w
  \/ exists above,
       above `suffix_of` rev_parts /\ x = fspath (MkPath root (rev above)).
Proof.
  revert w. induction rev_parts as [|part above IH]; intros w;
    cbn [mkdir_parents].
  - pose proof (os_mkdir_dirs (fspath (MkPath root (rev []))) w x) as Hself.
    assert (x ∈ dirs w \/ x = fspath (MkPath root (rev [])) ->
            x ∈ dirs w
            \/ exists above : list string,
                 above `suffix_of` [] /\ x = fspath (MkPath root (rev above)))
      as Hfin.
    { intros [?| ->]; [by left|right]. by exists []. }
    destruct (os_mkdir _ w) as [[[]|e] w']; [by auto|]. simpl in Hself.
    destruct (isinstance e FileNotFoundError); [by auto|].
    destruct (isinstance e OSError); [|by auto].
    rewrite unless_is_dir_frame. by auto.
  - set (self := fspath (MkPath root (rev (part :: above)))).
    pose proof (os_mkdir_dirs self w x) as Hself.
    assert (forall v : world,
              (x ∈ dirs v -> x ∈ dirs w \/ x = self) ->
              x ∈ dirs v ->
              x ∈ dirs w
              \/ exists above' : list string,
                   above' `suffix_of` part :: above
                   /\ x = fspath (MkPath root (rev above'))) as Hfin.
    { intros v Hv Hx. destruct (Hv Hx) as [?| ->]; [by left|right].
      by exists (part :: above). }
    destruct (os_mkdir self w) as [[[]|e] w']; [by apply Hfin|].
    simpl in Hself.
    destruct (isinstance e FileNotFoundError).
    + unfold bind. pose proof (IH w') as Habove.
      destruct (mkdir_parents root above w') as [[[]|e'] w''];
        simpl in Habove.
      * intros [Hx| ->]%mkdir_retry_dirs; [|right; by exists (part :: above)].
        destruct (Habove Hx) as [Hx'|(above' & Hsuf & ->)].
        -- by apply (Hfin w').
        -- right. exists above'. split; [by apply suffix_cons_r|done].
      * simpl. intros Hx.
        destruct (Habove Hx) as [Hx'|(above' & Hsuf & ->)].
        -- by apply (Hfin w').
        -- right. exists above'. split; [by apply suffix_cons_r|done].
    + destruct (isinstance e OSError); [|by apply Hfin].
      rewrite unless_is_dir_frame. by apply Hfin.
Qed.

Lemma Path_mkdir_dirs p w x :
  x ∈ dirs (snd (Path_mkdir p w)) ->
  x ∈ dirs w
  \/ exists above,
       above `prefix_of` parts p /\ x = fspath (MkPath (root p) above).
Proof.
  intros [?|(above & [k Hk] & ->)]%mkdir_parents_dirs; [by left|right].
  exists (rev above). split; [|done].
  exists (rev k). by rewrite <-(rev_involutive (parts p)), Hk, rev_app_distr.
Qed.



(** X13: however [generate_syscall_command] ends, the only file it can
    have changed after the headers were prepared is the output file named
    after the mapped architecture; no directory is removed, and the only
    directories it can have made are the output directory and those above
    it. *)
Theorem command_frame
    (prepare_command : Args -> M string) (args : Args) (w : world) :
  let w1 := snd (prepare_command args w) in
  let w' := snd (generate_syscall_command prepare_command args w) in
  dirs w1 ⊆ dirs w'
  /\ (forall d,
        d ∈ dirs w' ->
        d ∈ dirs w1
        \/ exists above,
             above `prefix_of` parts (output_path args)
             /\ d = fspath (MkPath (root (output_path args)) above))
  /\ forall q,
       (forall rust_arch,
          MAP_RUST_ARCH !! arch args = Some rust_arch ->
          q <> fspath (Path_div (output_path args) (rust_arch +:+ ".rs"))) ->
       files w' !! q = files w1 !! q.
Proof.
  unfold generate_syscall_command, bind.
  destruct (prepare_command args w) as [[src_dir|e] w1]; simpl; [|by auto].
  destruct (generate_syscall_table_cases
              (header_path_of src_dir (arch args)) w1)
    as [(text & table & _ & _ & ->)|[->|(cause & ->)]]; [|by auto..].
  pose proof (Path_mkdir_frame (output_path args) w1)
    as (Hfiles & _ & _ & _ & _ & Hgrow).
  pose proof (Path_mkdir_dirs (output_path args) w1) as Hmade.
  destruct (Path_mkdir (output_path args) w1) as [[[]|e] w2]; simpl in *;
    [|split; [done|split; [done|intros q _; by rewrite Hfiles]]].
  unfold getitem.
  destruct (MAP_RUST_ARCH !! arch args) as [rust_arch|] eqn:Hmap;
    [|unfold raise; simpl;
      split; [done|split; [done|intros q _; by rewrite Hfiles]]].
  destruct (generate_rust_code_frame table
              (fspath (Path_div (output_path args) (rust_arch +:+ ".rs"))) w2)
    as (Hdirs & Hframe).
  unfold ret. rewrite Hdirs. split; [done|]. split; [done|].
  intros q Hq. rewrite Hframe, Hfiles; [done|]. by apply Hq.
Qed.

Lemma command_frame_witness :
  files (snd (generate_syscall_command
           (fun _ => ret "/tmp/linux-6.12.8/linux-6.12.8")
           (MkArgs "riscv" "6.12.8" None (MkPath "" ["out"]))
           (World {[ "/tmp/linux-6.12.8/riscv_headers/include/asm/unistd_64.h"
                     := "#define __NR_read 63";
                     "out/aarch64.rs" := "earlier" ]}
                  {[ "out" ]} ∅ ∅ (Some (fun text => (0, text))) [])))
    !! "out/aarch64.rs"
  = files (snd ((fun _ : Args => ret "/tmp/linux-6.12.8/linux-6.12.8")
             (MkArgs "riscv" "6.12.8" None (MkPath "" ["out"]))
             (World {[ "/tmp/linux-6.12.8/riscv_headers/include/asm/unistd_64.h"
                       := "#define __NR_read 63";
                       "out/aarch64.rs" := "earlier" ]}
                    {[ "out" ]} ∅ ∅ (Some (fun text => (0, text))) [])))
      !! "out/aarch64.rs".
Proof.
  apply (command_frame
           (fun _ => ret "/tmp/linux-6.12.8/linux-6.12.8")
           (MkArgs "riscv" "6.12.8" None (MkPath "" ["out"]))).
  intros rust_arch [= <-]. discriminate.
Defined.

(** ** Where the header is looked up *)

Lemma head_no_sep base :
  Str.all (fun c => negb (is_sep c)) base = true -> OsPath.head base = "".
Proof.
  unfold is_sep. induction base as [|c base IH]; [done|]. simpl.
  rewrite andb_true_iff, negb_true_iff. intros [Hc Hb].
  by rewrite IH, Hc.
Qed.

Lemma head_app_sep dir base :
  Str.all (fun c => negb (is_sep c)) base = true ->
  OsPath.head (dir +:+ "/" +:+ base) = dir +:+ "/".
Proof.
  intros Hb. induction dir as [|c dir IH].
  - change ("" +:+ "/" +:+ base) with (String "/" base). simpl.
    by rewrite head_no_sep.
  - rewrite app_cons. simpl. rewrite IH. by destruct dir.
Qed.

Lemma not_all_sep dir :
  dir <> "" -> OsPath.endswith_sep dir = false ->
  Str.all (Ascii.eqb OsPath.sep) (dir +:+ "/") = false.
Proof.
  induction dir as [|c dir IH]; [done|]. intros _ Hend.
  rewrite app_cons. cbn [Str.all]. destruct dir as [|c' dir'].
  - cbn [OsPath.endswith_sep] in Hend. by rewrite Ascii.eqb_sym, Hend.
  - rewrite IH; [by rewrite andb_false_r|done|done].
Qed.

Lemma rstrip_sep_app dir :
  dir <> "" -> OsPath.endswith_sep dir = false ->
  OsPath.rstrip_sep (dir +:+ "/") = dir.
Proof.
  induction dir as [|c dir IH]; [done|]. intros _ Hend.
  rewrite app_cons. simpl. destruct dir as [|c' dir'].
  - simpl in *. by rewrite Hend.
  - by rewrite IH.
Qed.

Lemma dirname_app dir base :
  dir <> "" -> OsPath.endswith_sep dir = false ->
  Str.all (fun c => negb (is_sep c)) base = true ->
  OsPath.dirname (dir +:+ "/" +:+ base) = dir.
Proof.
  intros Hne Hend Hb. unfold OsPath.dirname.
  rewrite head_app_sep, not_all_sep by done.
  assert ((dir +:+ "/" =? "")%string = false) as ->.
  { apply String.eqb_neq. by destruct dir. }
  simpl. by apply rstrip_sep_app.
Qed.

(** X14: for a source directory [dir/base], with [dir] not ending in a
    slash and [base] holding none, the header of an architecture is
    looked up beside the source directory, at
    [dir/<arch>_headers/include/asm/unistd_64.h]; an architecture that
    begins with a slash makes the path absolute and the source directory
    is ignored. *)
Theorem header_path_beside_source (dir base arch : string) :
  (dir <> "" -> OsPath.endswith_sep dir = false ->
   Str.all (fun c => negb (is_sep c)) base = true ->
   Str.starts_in is_sep arch = false ->
   header_path_of (dir +:+ "/" +:+ base) arch
   = dir +:+ "/" +:+ arch +:+ "_headers/include/asm/unistd_64.h")
  /\ (Str.starts_in is_sep arch = true ->
      forall src_dir,
        header_path_of src_dir arch
        = arch +:+ "_headers/include/asm/unistd_64.h").
Proof.
  unfold header_path_of, OsPath.join. split.
  - intros Hne Hend Hb Harch. rewrite dirname_app by done.
    assert (Str.starts_in (Ascii.eqb OsPath.sep)
              (arch +:+ "_headers/include/asm/unistd_64.h") = false) as ->.
    { destruct arch as [|c arch]; [done|].
      rewrite app_cons. cbn [Str.starts_in] in *. unfold is_sep in Harch.
      by rewrite Ascii.eqb_sym. }
    rewrite Hend. assert ((dir =? "")%string = false) as ->.
    { by apply String.eqb_neq. }
    done.
  - intros Harch src_dir.
    assert (Str.starts_in (Ascii.eqb OsPath.sep)
              (arch +:+ "_headers/include/asm/unistd_64.h") = true) as ->.
    { destruct arch as [|c arch]; [done|].
      rewrite app_cons. cbn [Str.starts_in] in *. unfold is_sep in Harch.
      by rewrite Ascii.eqb_sym. }
    done.
Qed.

Lemma header_path_beside_source_witness :
  header_path_of ("/tmp/linux-6.12.8" +:+ "/" +:+ "linux-6.12.8") "riscv"
  = "/tmp/linux-6.12.8" +:+ "/" +:+ "riscv"
    +:+ "_headers/include/asm/unistd_64.h"
  /\ header_path_of "/tmp/linux-6.12.8/linux-6.12.8" "/etc/x"
     = "/etc/x" +:+ "_headers/include/asm/unistd_64.h".
Proof.
  split.
  - apply header_path_beside_source; first [reflexivity | discriminate].
  - apply (proj2 (header_path_beside_source "" "" "/etc/x")). reflexivity.
Defined.

(** ** Preparing the headers, then looking one up *)

Section prepare_then_generate.
Variable check_kernel_version : string -> M unit.
Variable create_temp_dir : string -> M string.
Variable download_kernel : string -> string -> M string.
Variable extract_kernel : string -> string -> M string.
Variable install_headers : string -> string -> option string -> M string.




End prepare_then_generate.

